(** * RMS: order lifecycle, pricing, table registry and payment settlement

    A shallow embedding of the request handlers of the restaurant
    management system (Next.js route handlers over a Prisma store) and of
    the properties of its order/table/payment core.

    Handlers and the source they are read from:
    - [POST_orders]: [POST] of [src/app/api/orders/route.ts];
    - [PUT_order], [POST_order_items]: [PUT], [POST] of
      [src/app/api/orders/[id]/route.ts];
    - [PUT_order_item], [DELETE_order_item]: [PUT], [DELETE] of
      [src/app/api/orders/[id]/items/[itemId]/route.ts];
    - [POST_discount], [DELETE_discount]: the apply-discount [POST] and
      remove-discount [DELETE] handlers;
    - [POST_payments]: the process-payment [POST] handler;
    - [POST_tables_merge], [POST_tables_unmerge], [PUT_tables]: the table
      merge, unmerge and update handlers;
    - the [...Schema] functions: the zod schemas of [lib/validations].

    Conventions of the embedding:
    - the persistent store is a record [DB]; tables, menu items and orders
      are finite maps keyed by their string id, order items and payments
      are lists in insertion order;
    - an awaited Prisma call is a computation [Prisma A] over the store
      that either yields a value or rejects (throws); the [try { ... }
      catch] of every handler turns a rejection into the handler's 500
      response, keeping whatever was already written;
    - a JavaScript [number] carrying money is an exact rational ([Q]):
      rounding of IEEE doubles is not modelled; where a handler lets a
      value through that need not be finite (the discount value it parses
      with [parseFloat], and the total it computes from it) the number is
      a [Number]: a rational, [NaN] or an infinity;
    - the [createdAt] and [updatedAt] timestamps of the rows are left out:
      no handler reads them;
    - a request body is a record with the field types the zod schema
      expects; the value checks of the schema (minimum lengths, enum
      membership, [int], [positive]) are modelled as written;
    - a new order starts as CREATED and a new item as PENDING (the column
      defaults the handlers rely on). *)

From Stdlib Require Import QArith Qminmax Qround Ascii String.
From stdpp Require Import base option list strings gmap fin_maps.

Open Scope string_scope.
Open Scope Q_scope.

(** ** Numbers that need not be finite

    What [parseFloat] can return, and what arithmetic on it gives: a
    finite number, [NaN], [Infinity] or [-Infinity].  The operations below
    follow IEEE 754 on these cases (a [NaN] operand gives [NaN], as do
    [0 * Infinity] and [Infinity - Infinity]); [Math.min] and [Math.max]
    return [NaN] as soon as one argument is [NaN]. *)

Inductive Number := Num (q : Q) | NaN | PosInf | NegInf.

Definition Nmul (x y : Number) : Number :=
  match x, y with
  | NaN, _ | _, NaN => NaN
  | Num a, Num b => Num (a * b)
  | Num a, PosInf | PosInf, Num a =>
    if Qeq_bool a 0 then NaN else if Qle_bool 0 a then PosInf else NegInf
  | Num a, NegInf | NegInf, Num a =>
    if Qeq_bool a 0 then NaN else if Qle_bool 0 a then NegInf else PosInf
  | PosInf, PosInf | NegInf, NegInf => PosInf
  | PosInf, NegInf | NegInf, PosInf => NegInf
  end.

(** [x / d] for a finite [d > 0] (the handlers divide by 100 only). *)
Definition Ndiv (x : Number) (d : Q) : Number :=
  match x with
  | Num a => Num (a / d)
  | other => other
  end.

Definition Nsub (x y : Number) : Number :=
  match x, y with
  | NaN, _ | _, NaN => NaN
  | Num a, Num b => Num (a - b)
  | Num _, PosInf => NegInf
  | Num _, NegInf => PosInf
  | PosInf, PosInf | NegInf, NegInf => NaN
  | PosInf, _ => PosInf
  | NegInf, _ => NegInf
  end.

Definition Nmin (x y : Number) : Number :=
  match x, y with
  | NaN, _ | _, NaN => NaN
  | NegInf, _ | _, NegInf => NegInf
  | PosInf, z | z, PosInf => z
  | Num a, Num b => Num (Qmin a b)
  end.

Definition Nmax (x y : Number) : Number :=
  match x, y with
  | NaN, _ | _, NaN => NaN
  | PosInf, _ | _, PosInf => PosInf
  | NegInf, z | z, NegInf => z
  | Num a, Num b => Num (Qmax a b)
  end.

(** The same number: equal rationals, or the same special value. *)
Definition Neq (x y : Number) : Prop :=
  match x, y with
  | Num a, Num b => a == b
  | NaN, NaN | PosInf, PosInf | NegInf, NegInf => True
  | _, _ => False
  end.

(** [x <= y] as JavaScript compares: false as soon as one side is [NaN]. *)
Definition Nle (x y : Number) : Prop :=
  match x, y with
  | NaN, _ | _, NaN => False
  | NegInf, _ | _, PosInf => True
  | Num a, Num b => a <= b
  | _, _ => False
  end.

Infix "≈" := Neq (at level 70, no associativity).

(** ** Data model (the Prisma models the handlers read and write) *)

Inductive TableStatus := VACANT | OCCUPIED | RESERVED | ORDER_PENDING.

Inductive OrderStatus := CREATED | PREPARING | READY | SERVED | PAID | CANCELLED.

Inductive OrderItemStatus := ItemPENDING | ItemPREPARING | ItemREADY | ItemSERVED.

Inductive PaymentMethod := CASH | CARD.

Inductive Role := OWNER | SUPERVISOR | FLOOR_STAFF | KITCHEN_STAFF.

#[global] Instance TableStatus_eq_dec : EqDecision TableStatus.
Proof. solve_decision. Defined.
#[global] Instance OrderStatus_eq_dec : EqDecision OrderStatus.
Proof. solve_decision. Defined.
#[global] Instance OrderItemStatus_eq_dec : EqDecision OrderItemStatus.
Proof. solve_decision. Defined.
#[global] Instance Role_eq_dec : EqDecision Role.
Proof. solve_decision. Defined.

Record Table := mkTable {
  t_number : Z;
  t_capacity : Z;
  t_status : TableStatus;
  t_mergedWithId : option string;
}.

Record MenuItem := mkMenuItem {
  mi_price : Q;
  mi_available : bool;
}.

Record Order := mkOrder {
  o_tableId : option string;
  o_status : OrderStatus;
  o_notes : option string;
  o_totalAmount : Number;
  o_createdById : string;
  o_discountType : option string;
  o_discountValue : option Number;
  o_discountReason : option string;
  o_discountAppliedBy : option string;
}.

Record OrderItem := mkOrderItem {
  oi_id : string;
  oi_orderId : string;
  oi_menuItemId : string;
  oi_quantity : Z;
  oi_notes : option string;
  oi_allergies : list string;
  oi_price : Q;
  oi_status : OrderItemStatus;
}.

Record Payment := mkPayment {
  p_orderId : string;
  p_amount : Q;
  p_method : PaymentMethod;
}.

Record DB := mkDB {
  tables : gmap string Table;
  menuItems : gmap string MenuItem;
  orders : gmap string Order;
  orderItems : list OrderItem;
  payments : list Payment;
}.

Definition with_tables (db : DB) (t : gmap string Table) : DB :=
  mkDB t (menuItems db) (orders db) (orderItems db) (payments db).
Definition with_orders (db : DB) (o : gmap string Order) : DB :=
  mkDB (tables db) (menuItems db) o (orderItems db) (payments db).
Definition with_orderItems (db : DB) (l : list OrderItem) : DB :=
  mkDB (tables db) (menuItems db) (orders db) l (payments db).
Definition with_payments (db : DB) (l : list Payment) : DB :=
  mkDB (tables db) (menuItems db) (orders db) (orderItems db) l.

(** Field updates written by the handlers ([data: { ... }]). *)

Definition table_set_status (s : TableStatus) (t : Table) : Table :=
  mkTable (t_number t) (t_capacity t) s (t_mergedWithId t).
Definition table_set_merge (m : option string) (s : TableStatus) (t : Table) : Table :=
  mkTable (t_number t) (t_capacity t) s m.

Definition order_set_status (s : OrderStatus) (o : Order) : Order :=
  mkOrder (o_tableId o) s (o_notes o) (o_totalAmount o) (o_createdById o)
          (o_discountType o) (o_discountValue o) (o_discountReason o)
          (o_discountAppliedBy o).
Definition order_set_totalAmount (q : Number) (o : Order) : Order :=
  mkOrder (o_tableId o) (o_status o) (o_notes o) q (o_createdById o)
          (o_discountType o) (o_discountValue o) (o_discountReason o)
          (o_discountAppliedBy o).
Definition order_set_discount (ty : option string) (v : option Number)
    (reason by_ : option string) (total : Number) (o : Order) : Order :=
  mkOrder (o_tableId o) (o_status o) (o_notes o) total (o_createdById o)
          ty v reason by_.

Definition item_set_status (s : OrderItemStatus) (it : OrderItem) : OrderItem :=
  mkOrderItem (oi_id it) (oi_orderId it) (oi_menuItemId it) (oi_quantity it)
              (oi_notes it) (oi_allergies it) (oi_price it) s.

(** ** Sessions and responses *)

Record User := mkUser { u_id : string; u_role : Role }.

(** [auth()] yields a session or nothing. *)
Definition Session := option User.

Definition role_in (allowed : list Role) (s : Session) : bool :=
  match s with
  | Some u => bool_decide (u_role u ∈ allowed)
  | None => false
  end.

(** What [NextResponse.json] carries: a payload (not modelled further), an
    [{ error: "..." }] message, or the issue list of a failed zod parse. *)
Inductive Body := Data | ErrorMessage (error : string) | Issues.

Record Response := mkResponse { status : nat; body : Body }.

Definition json (code : nat) : Response := mkResponse code Data.
Definition error (code : nat) (msg : string) : Response :=
  mkResponse code (ErrorMessage msg).
Definition issues : Response := mkResponse 400 Issues.

(** ** Awaited store calls *)

(** [None] is a rejected promise: the call threw. *)
Definition Prisma (A : Type) : Type := DB → option A * DB.

#[global] Instance prisma_ret : MRet Prisma := λ A a db, (Some a, db).
#[global] Instance prisma_bind : MBind Prisma := λ A B k m db,
  match m db with
  | (Some a, db') => k a db'
  | (None, db') => (None, db')
  end.

Definition throw {A} : Prisma A := λ db, (None, db).
Definition get {A} (f : DB → A) : Prisma A := λ db, (Some (f db), db).
Definition put (f : DB → DB) : Prisma unit := λ db, (Some tt, f db).

(** [try { ... } catch (error) { return 500 }] around a handler body. *)
Definition tryCatch (m : Prisma Response) (onError : Response)
    (db : DB) : Response * DB :=
  match m db with
  | (Some r, db') => (r, db')
  | (None, db') => (onError, db')
  end.

(** [prisma.$transaction([...])]: the writes run in order; when one of them
    rejects, none is kept. *)
Fixpoint run_all (ops : list (Prisma unit)) : Prisma unit :=
  match ops with
  | [] => mret tt
  | op :: rest => op ≫= λ _, run_all rest
  end.

Definition transaction (ops : list (Prisma unit)) : Prisma unit := λ db,
  match run_all ops db with
  | (Some _, db') => (Some tt, db')
  | (None, _) => (None, db)
  end.

(** [update] rejects when no record has the id; [updateMany] never does. *)
Definition table_update (id : string) (f : Table → Table) : Prisma unit := λ db,
  match tables db !! id with
  | Some t => (Some tt, with_tables db (<[id := f t]> (tables db)))
  | None => (None, db)
  end.

Definition table_updateMany (where_ : Table → bool) (f : Table → Table)
    : Prisma unit :=
  put (λ db, with_tables db ((λ t, if where_ t then f t else t) <$> tables db)).

(** [findMany] result sets are kept keyed by id. *)
Definition table_findMany (where_ : Table → bool) : Prisma (gmap string Table) :=
  get (λ db, filter (λ kt, where_ kt.2 = true) (tables db)).

Definition menuItem_findMany (ids : list string) : Prisma (gmap string MenuItem) :=
  get (λ db, filter (λ kv, kv.1 ∈ ids) (menuItems db)).

Definition order_update (id : string) (f : Order → Order) : Prisma unit := λ db,
  match orders db !! id with
  | Some o => (Some tt, with_orders db (<[id := f o]> (orders db)))
  | None => (None, db)
  end.

Definition order_findUnique (id : string) : Prisma (option Order) :=
  get (λ db, orders db !! id).

Definition menuItem_findUnique (id : string) : Prisma (option MenuItem) :=
  get (λ db, menuItems db !! id).

(** [include: { items: true }] and [include: { payment: true }]. *)
Definition items_of (db : DB) (orderId : string) : list OrderItem :=
  filter (λ it, oi_orderId it = orderId) (orderItems db).
Definition payment_of (db : DB) (orderId : string) : option Payment :=
  find (λ p, bool_decide (p_orderId p = orderId)) (payments db).

Definition orderItem_findUnique (id : string) : Prisma (option OrderItem) :=
  get (λ db, find (λ it, bool_decide (oi_id it = id)) (orderItems db)).

Definition orderItem_update (id : string) (f : OrderItem → OrderItem)
    : Prisma OrderItem := λ db,
  match find (λ it, bool_decide (oi_id it = id)) (orderItems db) with
  | Some it =>
      (Some (f it),
       with_orderItems db
         ((λ x, if bool_decide (oi_id x = id) then f x else x) <$> orderItems db))
  | None => (None, db)
  end.

Definition orderItem_delete (id : string) : Prisma unit := λ db,
  match find (λ it, bool_decide (oi_id it = id)) (orderItems db) with
  | Some _ =>
      (Some tt,
       with_orderItems db (filter (λ x, oi_id x ≠ id) (orderItems db)))
  | None => (None, db)
  end.

Definition payment_create (p : Payment) : Prisma Payment := λ db,
  (Some p, with_payments db (payments db ++ [p])).

(** The Prisma schema is not part of the sources read here, so whether the
    store rejects a dangling reference (a foreign key) is a parameter [fk]
    of the calls that create rows or write a reference.  A primary key is
    always unique: creating a row under an id in use rejects.  The ids
    themselves are drawn by the client; [cuid 0] names a created order or
    single row, [cuid (S i)] the [i]-th nested item. *)

Definition refs_exist (db : DB) (o : Order) (its : list OrderItem) : bool :=
  match o_tableId o with
  | Some t => bool_decide (is_Some (tables db !! t))
  | None => true
  end
  && forallb (λ it, bool_decide (is_Some (menuItems db !! oi_menuItemId it))) its.

Definition item_ids_free (db : DB) (its : list OrderItem) : bool :=
  bool_decide (NoDup (oi_id <$> its))
  && forallb (λ it, bool_decide (oi_id it ∉ oi_id <$> orderItems db)) its.

(** [prisma.order.create] with nested [items: { create: [...] }]: one
    atomic write of the order and its items. *)
Definition order_create (fk : bool) (id : string) (o : Order)
    (its : list OrderItem) : Prisma unit := λ db,
  if bool_decide (is_Some (orders db !! id)) then (None, db)
  else if negb (item_ids_free db its) then (None, db)
  else if fk && negb (refs_exist db o its) then (None, db)
  else (Some tt,
        with_orderItems (with_orders db (<[id := o]> (orders db)))
                        (orderItems db ++ its)).

Definition orderItem_create (fk : bool) (it : OrderItem) : Prisma OrderItem := λ db,
  if negb (item_ids_free db [it]) then (None, db)
  else if fk && negb (bool_decide (is_Some (orders db !! oi_orderId it))
                      && bool_decide (is_Some (menuItems db !! oi_menuItemId it)))
       then (None, db)
  else (Some it, with_orderItems db (orderItems db ++ [it])).

(** ** Validation schemas *)

(** [z.string().min(1)] *)
Definition nonempty (s : string) : bool := negb (bool_decide (s = "")).

(** [z.number().int()] and [z.number().positive()] *)
Definition is_int (q : Q) : bool := Qeq_bool q (inject_Z (Qfloor q)).
Definition positive (q : Q) : bool :=
  match 0 ?= q with Lt => true | _ => false end.

Definition parseTableStatus (s : string) : option TableStatus :=
  if bool_decide (s = "VACANT") then Some VACANT
  else if bool_decide (s = "OCCUPIED") then Some OCCUPIED
  else if bool_decide (s = "RESERVED") then Some RESERVED
  else if bool_decide (s = "ORDER_PENDING") then Some ORDER_PENDING
  else None.

Definition parseOrderStatus (s : string) : option OrderStatus :=
  if bool_decide (s = "CREATED") then Some CREATED
  else if bool_decide (s = "PREPARING") then Some PREPARING
  else if bool_decide (s = "READY") then Some READY
  else if bool_decide (s = "SERVED") then Some SERVED
  else if bool_decide (s = "PAID") then Some PAID
  else if bool_decide (s = "CANCELLED") then Some CANCELLED
  else None.

Definition parseOrderItemStatus (s : string) : option OrderItemStatus :=
  if bool_decide (s = "PENDING") then Some ItemPENDING
  else if bool_decide (s = "PREPARING") then Some ItemPREPARING
  else if bool_decide (s = "READY") then Some ItemREADY
  else if bool_decide (s = "SERVED") then Some ItemSERVED
  else None.

Definition parsePaymentMethod (s : string) : option PaymentMethod :=
  if bool_decide (s = "CASH") then Some CASH
  else if bool_decide (s = "CARD") then Some CARD
  else None.

(** Request bodies as they arrive, and the data a successful parse yields. *)

Record OrderItemBody := mkOrderItemBody {
  b_menuItemId : string;
  b_quantity : Q;
  b_notes : option string;
  b_allergies : option (list string);
}.

Record OrderItemData := mkOrderItemData {
  d_menuItemId : string;
  d_quantity : Z;
  d_notes : option string;
  d_allergies : option (list string);
}.

Record CreateOrderBody := mkCreateOrderBody {
  b_tableId : string;
  b_orderNotes : option string;
  b_items : list OrderItemBody;
}.

Record CreateOrderData := mkCreateOrderData {
  d_tableId : string;
  d_orderNotes : option string;
  d_items : list OrderItemData;
}.

Definition addOrderItemSchema (b : OrderItemBody) : option OrderItemData :=
  if nonempty (b_menuItemId b) && is_int (b_quantity b) && positive (b_quantity b)
  then Some (mkOrderItemData (b_menuItemId b) (Qfloor (b_quantity b))
                             (b_notes b) (b_allergies b))
  else None.

Definition createOrderSchema (b : CreateOrderBody) : option CreateOrderData :=
  if nonempty (b_tableId b) && bool_decide (1 ≤ length (b_items b))%nat
  then items ← mapM addOrderItemSchema (b_items b);
       Some (mkCreateOrderData (b_tableId b) (b_orderNotes b) items)
  else None.

Definition mergeTablesSchema (tableIds : list string) : option (list string) :=
  if bool_decide (2 ≤ length tableIds)%nat then Some tableIds else None.

Definition updateOrderStatusSchema (status : string) : option OrderStatus :=
  parseOrderStatus status.

Definition updateOrderItemStatusSchema (status : string) : option OrderItemStatus :=
  parseOrderItemStatus status.

Record PaymentBody := mkPaymentBody {
  b_orderId : string;
  b_amount : Q;
  b_method : string;
}.

Definition createPaymentSchema (b : PaymentBody)
    : option (string * Q * PaymentMethod) :=
  if nonempty (b_orderId b) && positive (b_amount b)
  then m ← parsePaymentMethod (b_method b); Some (b_orderId b, b_amount b, m)
  else None.

(** [status] optional; [mergedWithId] absent, [null] or a string. *)
Record TableBody := mkTableBody {
  b_id : option string;
  b_status : option string;
  b_mergedWithId : option (option string);
}.

Definition updateTableSchema (b : TableBody)
    : option (option TableStatus * option (option string)) :=
  match b_status b with
  | None => Some (None, b_mergedWithId b)
  | Some s => st ← parseTableStatus s; Some (Some st, b_mergedWithId b)
  end.

(** ** Pricing *)

(** [items.reduce((sum, item) => sum + item.price * item.quantity, 0)] *)
Definition subtotal (its : list OrderItem) : Q :=
  foldl (λ sum it, sum + oi_price it * inject_Z (oi_quantity it)) 0 its.

(** [x || 0] on an optional number: [undefined] and [0] both give [0]. *)
Definition or0 (x : option Q) : Q :=
  match x with
  | Some p => if Qeq_bool p 0 then 0 else p
  | None => 0
  end.

(** The tax rate lives in the dashboard page only ([const TAX_RATE = 0.13]),
    where [calculateOrderTotals] derives tax and grand total for display. *)
Definition TAX_RATE : Q := 13 # 100.

(** ** Order handlers *)

(** [POST /api/orders]: create an order with its items. *)
Definition POST_orders (fk : bool) (cuid : nat → string) (session : Session)
    (body : CreateOrderBody) : DB → Response * DB :=
  tryCatch
    (match session with
     | None => mret (error 401 "Unauthorized")
     | Some user =>
       if negb (bool_decide (u_role user ∈ [OWNER; SUPERVISOR; FLOOR_STAFF]))
       then mret (error 401 "Unauthorized")
       else
         match createOrderSchema body with
         | None => mret issues
         | Some data =>
           let tableId := d_tableId data in
           let items := d_items data in
           let menuItemIds := d_menuItemId <$> items in
           found ← menuItem_findMany menuItemIds;
           let menuItemPrices : gmap string Q := mi_price <$> found in
           let totalAmount :=
             foldl (λ sum item,
                      let price := or0 (menuItemPrices !! d_menuItemId item) in
                      sum + price * inject_Z (d_quantity item)) 0 items in
           _ ← order_create fk (cuid 0%nat)
                 (mkOrder (Some tableId) CREATED (d_orderNotes data)
                          (Num totalAmount) (u_id user) None None None None)
                 (imap (λ i item,
                          mkOrderItem (cuid (S i)) (cuid 0%nat) (d_menuItemId item)
                            (d_quantity item) (d_notes item)
                            (default [] (d_allergies item))
                            (or0 (menuItemPrices !! d_menuItemId item))
                            ItemPENDING) items);
           _ ← table_update tableId (table_set_status OCCUPIED);
           mret (json 201)
         end
     end)
    (error 500 "Failed to create order").

(** [PUT /api/orders/:id]: set the order status. *)
Definition PUT_order (session : Session) (id : string) (status : string)
    : DB → Response * DB :=
  tryCatch
    (match session with
     | None => mret (error 401 "Unauthorized")
     | Some _ =>
       match updateOrderStatusSchema status with
       | None => mret issues
       | Some st =>
         _ ← order_update id (order_set_status st);
         mret (json 200)
       end
     end)
    (error 500 "Failed to update order").

(** The total recomputation shared by the add-item and remove-item
    handlers: [findUnique({ include: { items } })], then [if (order)]. *)
Definition recompute_total (id : string) : Prisma unit :=
  order ← order_findUnique id;
  match order with
  | Some _ =>
    its ← get (λ db, items_of db id);
    let newTotal := subtotal its in
    order_update id (order_set_totalAmount (Num newTotal))
  | None => mret tt
  end.

(** [POST /api/orders/:id]: add one item to an existing order. *)
Definition POST_order_items (fk : bool) (cuid : nat → string) (session : Session)
    (id : string) (body : OrderItemBody) : DB → Response * DB :=
  tryCatch
    (match session with
     | None => mret (error 401 "Unauthorized")
     | Some user =>
       if negb (bool_decide (u_role user ∈ [OWNER; SUPERVISOR; FLOOR_STAFF]))
       then mret (error 401 "Unauthorized")
       else
         match addOrderItemSchema body with
         | None => mret issues
         | Some data =>
           menuItem ← menuItem_findUnique (d_menuItemId data);
           match menuItem with
           | None => mret (error 404 "Menu item not found")
           | Some menuItem =>
             _ ← orderItem_create fk
                   (mkOrderItem (cuid 0%nat) id (d_menuItemId data)
                      (d_quantity data) (d_notes data)
                      (default [] (d_allergies data)) (mi_price menuItem)
                      ItemPENDING);
             _ ← recompute_total id;
             mret (json 201)
           end
         end
     end)
    (error 500 "Failed to add order item").

(** [PUT /api/orders/:id/items/:itemId]: set an item status, then promote
    the order to READY when it was PREPARING and every item is READY. *)
Definition PUT_order_item (session : Session) (itemId : string) (status : string)
    : DB → Response * DB :=
  tryCatch
    (match session with
     | None => mret (error 401 "Unauthorized")
     | Some _ =>
       match updateOrderItemStatusSchema status with
       | None => mret issues
       | Some st =>
         orderItem ← orderItem_update itemId (item_set_status st);
         order ← order_findUnique (oi_orderId orderItem);
         _ ← match order with
             | Some order =>
               its ← get (λ db, items_of db (oi_orderId orderItem));
               let allReady :=
                 forallb (λ it, bool_decide (oi_status it = ItemREADY)) its in
               if allReady && bool_decide (o_status order = PREPARING)
               then order_update (oi_orderId orderItem) (order_set_status READY)
               else mret tt
             | None => mret tt
             end;
         mret (json 200)
       end
     end)
    (error 500 "Failed to update order item status").

(** [DELETE /api/orders/:id/items/:itemId]: remove a PENDING item. *)
Definition DELETE_order_item (session : Session) (orderId itemId : string)
    : DB → Response * DB :=
  tryCatch
    (match session with
     | None => mret (error 401 "Unauthorized")
     | Some _ =>
       orderItem ← orderItem_findUnique itemId;
       match orderItem with
       | None => mret (error 404 "Item not found")
       | Some orderItem =>
         if negb (bool_decide (oi_status orderItem = ItemPENDING))
         then mret (error 400
                "Can only remove items that have not been sent to kitchen")
         else
           _ ← orderItem_delete itemId;
           _ ← recompute_total orderId;
           mret (json 200)
       end
     end)
    (error 500 "Failed to remove order item").

(** ** Discount handlers *)

(** [String.prototype.toLowerCase] and [includes], on ASCII strings. *)
Definition lower_ascii (c : ascii) : ascii :=
  let n := N_of_ascii c in
  if ((65 <=? n) && (n <=? 90))%N then ascii_of_N (n + 32) else c.

Fixpoint toLowerCase (s : string) : string :=
  match s with
  | EmptyString => EmptyString
  | String c r => String (lower_ascii c) (toLowerCase r)
  end.

Fixpoint includes (needle hay : string) : bool :=
  String.prefix needle hay
  || match hay with
     | EmptyString => false
     | String _ r => includes needle r
     end.

(** The body of an apply-discount request.  [discountValue] is any JSON
    value; the handler tests it against [undefined] only and then reads it
    with [parseFloat(String(discountValue))].  The field holds the outcome:
    [None] when the value is absent, otherwise what [parseFloat] returns
    for it - a number, [NaN] (for [null], [true], a string that does not
    start with a number, ...) or an infinity. *)
Record DiscountBody := mkDiscountBody {
  b_discountOrderId : option string;
  b_discountType : option string;
  b_discountValue : option Number;
  b_discountReason : option string;
}.

Definition isBundleDiscount (discountReason : option string) : bool :=
  match discountReason with
  | Some r =>
    nonempty r
    && (includes "bundle" (toLowerCase r) || includes "deal" (toLowerCase r)
        || includes "meal" (toLowerCase r) || includes "promotion" (toLowerCase r))
  | None => false
  end.

(** The amount taken off by [POST /api/orders/discount], before and after
    [Math.min(discountAmount, subtotal)]. *)
Definition discountAmount_raw (discountType : string) (value : Number)
    (sub : Q) : Number :=
  if bool_decide (discountType = "PERCENTAGE")
  then Ndiv (Nmul (Num sub) value) 100
  else if bool_decide (discountType = "FIXED") then value
  else Num 0.

Definition discountAmount (discountType : string) (value : Number) (sub : Q)
    : Number :=
  Nmin (discountAmount_raw discountType value sub) (Num sub).

(** A raw [UPDATE orders SET ... WHERE id = ...]: no row, no error. *)
Definition order_executeRaw (id : string) (f : Order → Order) : Prisma unit :=
  put (λ db, with_orders db (alter f id (orders db))).

(** [POST /api/orders/discount]: apply a discount.  The 500 answer of the
    source appends the text of the caught error to its message; the
    [updatedAt = NOW()] of the UPDATE is a timestamp, left out. *)
Definition POST_discount (session : Session) (body : DiscountBody)
    : DB → Response * DB :=
  tryCatch
    (match session with
     | None => mret (error 401 "Unauthorized")
     | Some user =>
       let userRole := u_role user in
       if negb (bool_decide (userRole ∈ [OWNER; SUPERVISOR; FLOOR_STAFF]))
       then mret (error 401 "Unauthorized")
       else if bool_decide (userRole = FLOOR_STAFF)
               && negb (isBundleDiscount (b_discountReason body))
       then mret (error 403 "Only Owner or Supervisor can apply manual discounts")
       else
         match b_discountOrderId body, b_discountType body, b_discountValue body with
         | Some orderId, Some discountType, Some parsedDiscountValue =>
           if negb (nonempty orderId) || negb (nonempty discountType)
           then mret (error 400 "Missing required fields")
           else
             order ← order_findUnique orderId;
             match order with
             | None => mret (error 404 "Order not found")
             | Some _ =>
               its ← get (λ db, items_of db orderId);
               let sub := subtotal its in
               let amount := discountAmount discountType parsedDiscountValue sub in
               let newTotal := Nmax (Num 0) (Nsub (Num sub) amount) in
               _ ← order_executeRaw orderId
                     (order_set_discount (Some discountType)
                        (Some parsedDiscountValue)
                        (match b_discountReason body with
                         | Some r => if nonempty r then Some r else None
                         | None => None
                         end)
                        (Some (u_id user)) newTotal);
               mret (json 200)
             end
         | _, _, _ => mret (error 400 "Missing required fields")
         end
     end)
    (error 500 "Failed to apply discount").

(** [DELETE /api/orders/discount?orderId=...]: remove the discount. *)
Definition DELETE_discount (session : Session) (orderId : option string)
    : DB → Response * DB :=
  tryCatch
    (match session with
     | None => mret (error 401 "Unauthorized")
     | Some user =>
       if negb (bool_decide (u_role user ∈ [OWNER; SUPERVISOR]))
       then mret (error 403 "Only Owner or Supervisor can remove discounts")
       else
         match orderId with
         | None => mret (error 400 "Order ID required")
         | Some orderId =>
           if negb (nonempty orderId) then mret (error 400 "Order ID required")
           else
             order ← order_findUnique orderId;
             match order with
             | None => mret (error 404 "Order not found")
             | Some _ =>
               its ← get (λ db, items_of db orderId);
               let sub := subtotal its in
               _ ← order_executeRaw orderId
                     (order_set_discount None None None None (Num sub));
               mret (json 200)
             end
         end
     end)
    (error 500 "Failed to remove discount").

(** ** Payment handler *)

(** [POST /api/payments]: record the payment, mark the order PAID and
    release its table. *)
Definition POST_payments (session : Session) (body : PaymentBody)
    : DB → Response * DB :=
  tryCatch
    (match session with
     | None => mret (error 401 "Unauthorized")
     | Some user =>
       if negb (bool_decide (u_role user ∈ [OWNER; SUPERVISOR; FLOOR_STAFF]))
       then mret (error 401 "Unauthorized")
       else
         match createPaymentSchema body with
         | None => mret issues
         | Some (orderId, amount, method) =>
           order ← order_findUnique orderId;
           match order with
           | None => mret (error 404 "Order not found")
           | Some order =>
             payment ← get (λ db, payment_of db orderId);
             match payment with
             | Some _ => mret (error 400 "Order already paid")
             | None =>
               _ ← payment_create (mkPayment orderId amount method);
               _ ← order_update orderId (order_set_status PAID);
               _ ← match o_tableId order with
                   | Some tableId =>
                     _ ← table_update tableId (table_set_status VACANT);
                     table_updateMany
                       (λ t, bool_decide (t_mergedWithId t = Some tableId))
                       (table_set_merge None VACANT)
                   | None => mret tt
                   end;
               mret (json 201)
             end
           end
         end
     end)
    (error 500 "Failed to process payment").

(** ** Table handlers *)

(** [POST /api/tables/merge] *)
Definition POST_tables_merge (session : Session) (tableIds : list string)
    : DB → Response * DB :=
  tryCatch
    (match session with
     | None => mret (error 401 "Unauthorized")
     | Some user =>
       if negb (bool_decide (u_role user ∈ [OWNER; SUPERVISOR; FLOOR_STAFF]))
       then mret (error 401 "Unauthorized")
       else
         match mergeTablesSchema tableIds with
         | None => mret issues
         | Some [] => throw
         | Some (primaryTableId :: otherTableIds) =>
           _ ← transaction
                 (table_update primaryTableId (table_set_status OCCUPIED)
                  :: ((λ id, table_update id
                               (table_set_merge (Some primaryTableId) OCCUPIED))
                        <$> otherTableIds));
           mret (json 200)
         end
     end)
    (error 500 "Failed to merge tables").

(** [POST /api/tables/unmerge] *)
Definition POST_tables_unmerge (session : Session) (tableId : option string)
    : DB → Response * DB :=
  tryCatch
    (match session with
     | None => mret (error 401 "Unauthorized")
     | Some user =>
       if negb (bool_decide (u_role user ∈ [OWNER; SUPERVISOR; FLOOR_STAFF]))
       then mret (error 401 "Unauthorized")
       else
         match tableId with
         | None => mret (error 400 "Table ID is required")
         | Some tableId =>
           if negb (nonempty tableId) then mret (error 400 "Table ID is required")
           else
             mergedTables ← table_findMany
                              (λ t, bool_decide (t_mergedWithId t = Some tableId));
             _ ← transaction
                   (((λ kt : string * Table,
                        table_update kt.1 (table_set_merge None VACANT))
                       <$> map_to_list mergedTables)
                    ++ [table_update tableId (table_set_status VACANT)]);
             mret (json 200)
         end
     end)
    (error 500 "Failed to unmerge tables").

(** [prisma.table.update({ where: { id }, data })] with the optional
    fields of [updateTableSchema]: an absent field is left alone. *)
Definition table_update_data (fk : bool) (id : string)
    (data : option TableStatus * option (option string)) : Prisma unit := λ db,
  let dangling :=
    match data.2 with
    | Some (Some m) => negb (bool_decide (is_Some (tables db !! m)))
    | _ => false
    end in
  if fk && dangling then (None, db)
  else table_update id
         (λ t, mkTable (t_number t) (t_capacity t)
                       (default (t_status t) data.1)
                       (default (t_mergedWithId t) data.2)) db.

(** [PUT /api/tables] *)
Definition PUT_tables (fk : bool) (session : Session) (body : TableBody)
    : DB → Response * DB :=
  tryCatch
    (match session with
     | None => mret (error 401 "Unauthorized")
     | Some user =>
       if negb (bool_decide (u_role user ∈ [OWNER; SUPERVISOR; FLOOR_STAFF]))
       then mret (error 401 "Unauthorized")
       else
         match b_id body with
         | None => mret (error 400 "Table ID is required")
         | Some id =>
           if negb (nonempty id) then mret (error 400 "Table ID is required")
           else
             match updateTableSchema body with
             | None => mret issues
             | Some data =>
               _ ← table_update_data fk id data;
               mret (json 200)
             end
         end
     end)
    (error 500 "Failed to update table").

(** ** The status graphs of the design document

    These two relations are written from the document (section 4.1), not
    from the handlers; they are what the handlers are compared with. *)

Definition spec_order_transition (from to : OrderStatus) : bool :=
  match from, to with
  | CREATED, PREPARING | PREPARING, READY | CREATED, READY
  | READY, SERVED | SERVED, PAID => true
  | (CREATED | PREPARING | READY | SERVED), CANCELLED => true
  | _, _ => false
  end.

Definition spec_item_transition (from to : OrderItemStatus) : bool :=
  match from, to with
  | ItemPENDING, ItemPREPARING | ItemPREPARING, ItemREADY
  | ItemREADY, ItemSERVED | ItemPENDING, ItemREADY => true
  | _, _ => false
  end.

(** ** A sample store

    Three free tables, a two-entry menu, and one open order ["o1"] at table
    ["A"] with two burgers and one portion of fries. *)

Definition owner : Session := Some (mkUser "u1" OWNER).
Definition waiter : Session := Some (mkUser "u2" FLOOR_STAFF).

Definition sample_cuid (n : nat) : string := String (ascii_of_nat (48 + n)) "".

Definition sample_tables : gmap string Table :=
  <["A" := mkTable 1 4 VACANT None]>
    (<["B" := mkTable 2 4 VACANT None]>
       (<["C" := mkTable 3 2 VACANT None]> ∅)).

Definition sample_menu : gmap string MenuItem :=
  <["burger" := mkMenuItem 10 true]> (<["fries" := mkMenuItem 5 true]> ∅).

Definition sample_empty : DB := mkDB sample_tables sample_menu ∅ [] [].

Definition sample_order : Order :=
  mkOrder (Some "A") CREATED None (Num 25) "u1" None None None None.

Definition sample_items : list OrderItem :=
  [ mkOrderItem "i1" "o1" "burger" 2 None [] 10 ItemPENDING;
    mkOrderItem "i2" "o1" "fries" 1 None [] 5 ItemREADY ].

Definition sample_db : DB :=
  mkDB (<["A" := mkTable 1 4 OCCUPIED None]> sample_tables) sample_menu
       {["o1" := sample_order]} sample_items [].

(** ** The request interface *)

Inductive Request :=
| CreateOrder (cuid : nat → string) (body : CreateOrderBody)
| AddItems (cuid : nat → string) (id : string) (body : OrderItemBody)
| RemoveItem (orderId itemId : string)
| TransitionItemStatus (itemId status : string)
| TransitionOrderStatus (id status : string)
| ApplyDiscount (body : DiscountBody)
| RemoveDiscount (orderId : option string)
| Settle (body : PaymentBody)
| MergeTables (tableIds : list string)
| UnmergeTables (tableId : option string)
| UpdateTable (body : TableBody).

Definition handle (fk : bool) (session : Session) (req : Request)
    : DB → Response * DB :=
  match req with
  | CreateOrder cuid body => POST_orders fk cuid session body
  | AddItems cuid id body => POST_order_items fk cuid session id body
  | RemoveItem orderId itemId => DELETE_order_item session orderId itemId
  | TransitionItemStatus itemId status => PUT_order_item session itemId status
  | TransitionOrderStatus id status => PUT_order session id status
  | ApplyDiscount body => POST_discount session body
  | RemoveDiscount orderId => DELETE_discount session orderId
  | Settle body => POST_payments session body
  | MergeTables tableIds => POST_tables_merge session tableIds
  | UnmergeTables tableId => POST_tables_unmerge session tableId
  | UpdateTable body => PUT_tables fk session body
  end.

(** The store after a sequence of requests, served one after the other. *)
Definition serve (fk : bool) (reqs : list (Session * Request)) (db : DB) : DB :=
  foldl (λ db sr, (handle fk sr.1 sr.2 db).2) db reqs.

(** ** Derived notions used in the statements *)

(** Lookups and outcomes. *)

Definition find_item (db : DB) (itemId : string) : option OrderItem :=
  find (λ it, bool_decide (oi_id it = itemId)) (orderItems db).

Definition succeeded (r : Response) : bool :=
  bool_decide (status r = 200%nat) || bool_decide (status r = 201%nat).

Definition can_settle (session : Session) : bool :=
  role_in [OWNER; SUPERVISOR; FLOOR_STAFF] session.

Definition can_seat (session : Session) : bool :=
  role_in [OWNER; SUPERVISOR; FLOOR_STAFF] session.

Definition positive_integer (q : Q) : Prop :=
  ∃ n : Z, (0 < n)%Z ∧ q == inject_Z n.

(** Frames: [keeps R m] says that the store after [m] is [R]-related to
    the store before. *)

Definition keeps (R : DB → DB → Prop) {A} (m : Prisma A) : Prop :=
  ∀ db, R db (m db).2.

(** The relation "the [f]-part of the store is unchanged". *)
Definition same {X} (f : DB → X) (db db' : DB) : Prop := f db' = f db.

(** Settlement. *)

(** The table map after the two table writes of a settlement on table
    [tableId], whose row before was [tb]. *)
Definition release_table (tableId : string) (tb : Table)
    (m : gmap string Table) : gmap string Table :=
  (λ t, if bool_decide (t_mergedWithId t = Some tableId)
        then table_set_merge None VACANT t else t)
    <$> <[tableId := table_set_status VACANT tb]> m.

(** The outcome of a settlement that passes every check of the handler. *)
Definition settled (db : DB) (orderId : string) (amount : Q)
    (method : PaymentMethod) (o : Order) : Response * DB :=
  let db2 :=
    with_orders
      (with_payments db (payments db ++ [mkPayment orderId amount method]))
      (<[orderId := order_set_status PAID o]> (orders db)) in
  match o_tableId o with
  | None => (json 201, db2)
  | Some t =>
    match tables db !! t with
    | Some tb => (json 201, with_tables db2 (release_table t tb (tables db)))
    | None => (error 500 "Failed to process payment", db2)
    end
  end.

Definition payments_for (db : DB) (orderId : string) : list Payment :=
  filter (λ p, p_orderId p = orderId) (payments db).

(** The 1:1 relation between orders and payments. *)
Definition at_most_one_payment (db : DB) : Prop :=
  ∀ orderId, (length (payments_for db orderId) ≤ 1)%nat.

(** Pricing. *)





(** What the handler computes from a parsed body: the price map, the
    order row and the item rows. *)
Definition menuItemPrices (db : DB) (data : CreateOrderData) : gmap string Q :=
  mi_price <$> filter (λ kv, kv.1 ∈ d_menuItemId <$> d_items data) (menuItems db).

Definition new_order (u : User) (data : CreateOrderData) (db : DB) : Order :=
  mkOrder (Some (d_tableId data)) CREATED (d_orderNotes data)
    (Num (foldl (λ sum item,
                   sum + or0 (menuItemPrices db data !! d_menuItemId item)
                         * inject_Z (d_quantity item)) 0 (d_items data)))
    (u_id u) None None None None.

Definition new_items (cuid : nat → string) (data : CreateOrderData) (db : DB)
    : list OrderItem :=
  imap (λ i item,
          mkOrderItem (cuid (S i)) (cuid 0%nat) (d_menuItemId item)
            (d_quantity item) (d_notes item) (default [] (d_allergies item))
            (or0 (menuItemPrices db data !! d_menuItemId item)) ItemPENDING)
       (d_items data).

(** The table registry and its star-merge invariant. *)

(** The table map a successful merge leaves. *)
Definition merged (primary : string) (others : list string)
    (m : gmap string Table) : gmap string Table :=
  foldl (λ m id, alter (table_set_merge (Some primary) OCCUPIED) id m)
        (alter (table_set_status OCCUPIED) primary m) others.

(** No table that is merged into another is itself a merge target. *)
Definition star (m : gmap string Table) : Prop :=
  ∀ a ta p c tc,
    m !! a = Some ta → t_mergedWithId ta = Some p →
    m !! c = Some tc → t_mergedWithId tc ≠ Some a.

(** [unlinks m m']: going from [m] to [m'], no table appears and every
    table keeps its merge link or loses it. *)
Definition unlinks (m m' : gmap string Table) : Prop :=
  ∀ k tb', m' !! k = Some tb' →
    ∃ tb, m !! k = Some tb
          ∧ (t_mergedWithId tb' = t_mergedWithId tb ∨ t_mergedWithId tb' = None).

Definition unlinked (db db' : DB) : Prop := unlinks (tables db) (tables db').

(** A field update that sets no merge link. *)
Definition link_safe (h : Table → Table) : Prop :=
  ∀ t, t_mergedWithId (h t) = t_mergedWithId t ∨ t_mergedWithId (h t) = None.

(** Requests that may set a merge link. *)
Definition writes_links (req : Request) : Prop :=
  match req with
  | MergeTables _ => True
  | UpdateTable body => b_mergedWithId body ≠ None
  | _ => False
  end.

#[global] Instance writes_links_dec (req : Request) : Decision (writes_links req).
Proof. destruct req; simpl; apply _. Defined.

(** What a merge must be given for the invariant to survive it: a primary
    that is not itself merged and not repeated among the other ids, and
    other ids none of which is currently a merge target.  The handler
    checks none of this. *)
Definition merge_guard (primary : string) (others : list string)
    (m : gmap string Table) : Prop :=
  (primary ∉ others)
  ∧ (m !! primary ≫= t_mergedWithId) = None
  ∧ map_Forall (λ _ tc, t_mergedWithId tc ∉ (Some <$> others)) m.

#[global] Instance merge_guard_dec primary others m :
  Decision (merge_guard primary others m).
Proof. unfold merge_guard. apply _. Defined.

(** Further sample stores and request bodies. *)

Definition sample_paid : DB :=
  with_payments sample_db [mkPayment "o1" 25 CARD].

(** Tables ["B"] and ["C"] merged into ["A"], where the sample order sits. *)
Definition sample_merged : DB :=
  with_tables sample_db
    (<["A" := mkTable 1 4 OCCUPIED None]>
       (<["B" := mkTable 2 4 OCCUPIED (Some "A")]>
          (<["C" := mkTable 3 2 OCCUPIED (Some "A")]> ∅))).

Definition sample_body : CreateOrderBody :=
  mkCreateOrderBody "A" None
    [ mkOrderItemBody "burger" 2 None None; mkOrderItemBody "fries" 1 None None ].

Definition sample_discount : DiscountBody :=
  mkDiscountBody (Some "o1") (Some "PERCENTAGE") (Some (Num 10))
                 (Some "regular guest").

Definition body_pizza : CreateOrderBody :=
  mkCreateOrderBody "A" None [ mkOrderItemBody "pizza" 1 None None ].

Definition body_no_table : CreateOrderBody :=
  mkCreateOrderBody "Z" None [ mkOrderItemBody "burger" 1 None None ].

Definition body_zero : CreateOrderBody :=
  mkCreateOrderBody "A" None [ mkOrderItemBody "burger" 0 None None ].

(** ** Proof support *)

Ltac run_prisma :=
  unfold tryCatch, mbind, prisma_bind, mret, prisma_ret, get, put, throw,
         order_findUnique, menuItem_findUnique, orderItem_findUnique in *;
  simpl in *.

(** ** Order status transitions *)

(** C2, as stated, fails: a direct CREATED -> PAID request on the sample
    order is answered 200 and the order is stored as PAID, although the
    graph has no such edge. *)
Lemma PUT_order_created_to_paid_accepted :
  spec_order_transition CREATED PAID = false
  ∧ o_status <$> orders sample_db !! "o1" = Some CREATED
  ∧ (PUT_order owner "o1" "PAID" sample_db).1 = json 200
  ∧ o_status <$> orders (PUT_order owner "o1" "PAID" sample_db).2 !! "o1"
    = Some PAID.
Proof. repeat split; vm_compute; reflexivity. Qed.

(** C2 (amended): the order-status handler checks the requested value
    against the enumeration only.  For a signed-in caller and an existing
    order, every one of the six status values is accepted whatever the
    current status, and is stored (all other fields and rows untouched); a
    value outside the enumeration is rejected with the 400 issue list and
    nothing is written. *)
Theorem PUT_order_sets_any_status (session : Session) (id status : string)
    (db : DB) (o : Order) :
  is_Some session →
  orders db !! id = Some o →
  match parseOrderStatus status with
  | Some st =>
    PUT_order session id status db
    = (json 200, with_orders db (<[id := order_set_status st o]> (orders db)))
  | None => PUT_order session id status db = (issues, db)
  end.
Proof.
  intros [u ->] Ho. unfold PUT_order, updateOrderStatusSchema.
  destruct (parseOrderStatus status) as [st|]; [|reflexivity].
  unfold order_update. run_prisma. rewrite Ho. reflexivity.
Qed.

Lemma PUT_order_sets_any_status_witness :
  PUT_order owner "o1" "PAID" sample_db
  = (json 200,
     with_orders sample_db
       (<["o1" := order_set_status PAID sample_order]> (orders sample_db))).
Proof.
  apply (PUT_order_sets_any_status owner "o1" "PAID" sample_db sample_order).
  - eexists; reflexivity.
  - reflexivity.
Defined.

(** ** Item status transitions *)

(** C3, as stated, fails: on the sample order a backward request
    (READY -> PENDING) and a skipping one (PENDING -> SERVED) are both
    answered 200 and stored, although neither is an edge of the item
    graph. *)
Lemma PUT_order_item_backward_accepted :
  spec_item_transition ItemREADY ItemPENDING = false
  ∧ oi_status <$> find_item sample_db "i2" = Some ItemREADY
  ∧ (PUT_order_item owner "i2" "PENDING" sample_db).1 = json 200
  ∧ oi_status <$> find_item (PUT_order_item owner "i2" "PENDING" sample_db).2 "i2"
    = Some ItemPENDING
  ∧ spec_item_transition ItemPENDING ItemSERVED = false
  ∧ oi_status <$> find_item sample_db "i1" = Some ItemPENDING
  ∧ (PUT_order_item owner "i1" "SERVED" sample_db).1 = json 200
  ∧ oi_status <$> find_item (PUT_order_item owner "i1" "SERVED" sample_db).2 "i1"
    = Some ItemSERVED.
Proof. repeat split; vm_compute; reflexivity. Qed.

Lemma find_item_fmap_update (l : list OrderItem) (itemId : string)
    (f : OrderItem → OrderItem) (it : OrderItem) :
  (∀ x, oi_id (f x) = oi_id x) →
  find (λ x, bool_decide (oi_id x = itemId)) l = Some it →
  find (λ x, bool_decide (oi_id x = itemId))
       ((λ x, if bool_decide (oi_id x = itemId) then f x else x) <$> l)
  = Some (f it).
Proof.
  intros Hid. induction l as [|x l IH]; simpl; [done|].
  destruct (bool_decide (oi_id x = itemId)) eqn:E; simpl.
  - intros [= ->]. rewrite Hid, E. reflexivity.
  - rewrite E. exact IH.
Qed.

(** C3 (amended): the item-status handler checks the requested value
    against the enumeration only.  For a signed-in caller and an existing
    item, every one of the four status values is accepted from every
    current status (forward, backward or skipping; PENDING -> READY among
    them): the answer is 200 and the item carries the requested status.  A
    value outside the enumeration is rejected with the 400 issue list and
    nothing is written. *)
Theorem PUT_order_item_sets_any_status (session : Session)
    (itemId status : string) (db : DB) (it : OrderItem) :
  is_Some session →
  find_item db itemId = Some it →
  match parseOrderItemStatus status with
  | Some st =>
    (PUT_order_item session itemId status db).1 = json 200
    ∧ orderItems (PUT_order_item session itemId status db).2
      = (λ x, if bool_decide (oi_id x = itemId) then item_set_status st x else x)
          <$> orderItems db
    ∧ find_item (PUT_order_item session itemId status db).2 itemId
      = Some (item_set_status st it)
  | None => PUT_order_item session itemId status db = (issues, db)
  end.
Proof.
  intros [u ->] Hit. unfold PUT_order_item, updateOrderItemStatusSchema.
  destruct (parseOrderItemStatus status) as [st|]; [|reflexivity].
  unfold find_item in *. unfold orderItem_update. run_prisma. rewrite Hit. simpl.
  assert (Hfind := find_item_fmap_update (orderItems db) itemId
                     (item_set_status st) it (λ _, eq_refl) Hit).
  destruct (orders db !! oi_orderId it) as [o|] eqn:Ho; simpl.
  - match goal with |- context [if ?c then _ else _] => destruct c end.
    + unfold order_update; simpl. rewrite Ho. simpl. auto.
    + simpl. auto.
  - auto.
Qed.

Lemma PUT_order_item_sets_any_status_witness :
  (PUT_order_item owner "i1" "READY" sample_db).1 = json 200
  ∧ orderItems (PUT_order_item owner "i1" "READY" sample_db).2
    = (λ x, if bool_decide (oi_id x = "i1") then item_set_status ItemREADY x else x)
        <$> orderItems sample_db
  ∧ find_item (PUT_order_item owner "i1" "READY" sample_db).2 "i1"
    = Some (item_set_status ItemREADY
              (mkOrderItem "i1" "o1" "burger" 2 None [] 10 ItemPENDING)).
Proof.
  apply (PUT_order_item_sets_any_status owner "i1" "READY" sample_db
           (mkOrderItem "i1" "o1" "burger" 2 None [] 10 ItemPENDING)).
  - eexists; reflexivity.
  - reflexivity.
Defined.

(** ** Frame reasoning: what a computation keeps

    [keeps R m]: the store after [m] is [R]-related to the store before,
    for a reflexive and transitive [R] (an unchanged part of the store, a
    relation that only shrinks, ...). *)

Section Keeps.
Context (R : DB → DB → Prop) `{!Reflexive R, !Transitive R}.

#[local] Abbreviation keeps := (keeps R).

Lemma keeps_ret {A} (a : A) : keeps (mret a).
Proof. intros db; simpl; reflexivity. Qed.

Lemma keeps_throw {A} : keeps (@throw A).
Proof. intros db; simpl; reflexivity. Qed.

Lemma keeps_get {A} (g : DB → A) : keeps (get g).
Proof. intros db; simpl; reflexivity. Qed.

Lemma keeps_bind {A B} (m : Prisma A) (k : A → Prisma B) :
  keeps m → (∀ a, keeps (k a)) → keeps (m ≫= k).
Proof.
  intros Hm Hk db. unfold mbind, prisma_bind.
  specialize (Hm db). destruct (m db) as [[a|] db1]; simpl in *.
  - etrans; [exact Hm | apply Hk].
  - exact Hm.
Qed.

Lemma keeps_run_all (ops : list (Prisma unit)) :
  Forall keeps ops → keeps (run_all ops).
Proof.
  induction 1 as [|op ops Hop _ IH]; simpl.
  - apply keeps_ret.
  - apply keeps_bind; [exact Hop | intros _; exact IH].
Qed.

Lemma keeps_transaction (ops : list (Prisma unit)) :
  Forall keeps ops → keeps (transaction ops).
Proof.
  intros H db. unfold transaction.
  assert (Hr := keeps_run_all ops H db).
  destruct (run_all ops db) as [[[]|] db1]; simpl in *; [done|reflexivity].
Qed.

Lemma keeps_tryCatch (m : Prisma Response) (onError : Response) :
  keeps m → ∀ db, R db (tryCatch m onError db).2.
Proof.
  intros H db. unfold tryCatch. specialize (H db).
  destruct (m db) as [[r|] db1]; exact H.
Qed.

(** Store calls that write one part of the store keep [R] as soon as
    [R] tolerates any write to that part. *)
Section Tables.
Hypothesis R_tables : ∀ db t, R db (with_tables db t).

Lemma keeps_table_update id g : keeps (table_update id g).
Proof.
  intros db. unfold table_update.
  destruct (tables db !! id); simpl; [apply R_tables|reflexivity].
Qed.

Lemma keeps_table_updateMany w g : keeps (table_updateMany w g).
Proof. intros db. unfold table_updateMany, put. simpl. apply R_tables. Qed.

Lemma keeps_table_update_data fk id data :
  keeps (table_update_data fk id data).
Proof.
  intros db. unfold table_update_data.
  destruct (fk && _); [simpl; reflexivity | apply keeps_table_update].
Qed.
End Tables.

Section Orders.
Hypothesis R_orders : ∀ db o, R db (with_orders db o).

Lemma keeps_order_update id g : keeps (order_update id g).
Proof.
  intros db. unfold order_update.
  destruct (orders db !! id); simpl; [apply R_orders|reflexivity].
Qed.

Lemma keeps_order_executeRaw id g : keeps (order_executeRaw id g).
Proof. intros db. unfold order_executeRaw, put. simpl. apply R_orders. Qed.

Lemma keeps_recompute_total id : keeps (recompute_total id).
Proof.
  unfold recompute_total. apply keeps_bind; [apply keeps_get|].
  intros [o|]; [|apply keeps_ret].
  apply keeps_bind; [apply keeps_get|].
  intros its. apply keeps_order_update.
Qed.

Hypothesis R_items : ∀ db l, R db (with_orderItems db l).

Lemma keeps_order_create fk id o its : keeps (order_create fk id o its).
Proof.
  intros db. unfold order_create.
  repeat (case_match; simpl; try reflexivity).
  etrans; [apply R_orders | apply R_items].
Qed.

Lemma keeps_orderItem_create fk it : keeps (orderItem_create fk it).
Proof.
  intros db. unfold orderItem_create.
  repeat (case_match; simpl; try reflexivity). apply R_items.
Qed.

Lemma keeps_orderItem_update id g : keeps (orderItem_update id g).
Proof.
  intros db. unfold orderItem_update.
  repeat (case_match; simpl; try reflexivity). apply R_items.
Qed.

Lemma keeps_orderItem_delete id : keeps (orderItem_delete id).
Proof.
  intros db. unfold orderItem_delete.
  repeat (case_match; simpl; try reflexivity). apply R_items.
Qed.
End Orders.

Hypothesis R_payments : ∀ db l, R db (with_payments db l).

Lemma keeps_payment_create p : keeps (payment_create p).
Proof. intros db. unfold payment_create. simpl. apply R_payments. Qed.
End Keeps.

#[global] Instance same_refl {X} (f : DB → X) : Reflexive (same f).
Proof. intros db; reflexivity. Qed.
#[global] Instance same_trans {X} (f : DB → X) : Transitive (same f).
Proof. intros a b c Hab Hbc. unfold same in *. congruence. Qed.

Ltac handlers :=
  unfold POST_orders, POST_order_items, DELETE_order_item, PUT_order_item,
         PUT_order, POST_discount, DELETE_discount, POST_payments,
         POST_tables_merge, POST_tables_unmerge, PUT_tables,
         updateOrderStatusSchema, order_findUnique, menuItem_findUnique,
         menuItem_findMany, orderItem_findUnique, table_findMany.

(** Decompose a handler body along its binds and branches; [side] proves
    that [R] tolerates the writes of the store calls met on the way. *)
Ltac frame_step R side :=
  first
    [ exact I
    | apply (keeps_ret R) | apply (keeps_throw R) | apply (keeps_get R)
    | apply (keeps_table_update R); solve [side]
    | apply (keeps_table_updateMany R); solve [side]
    | apply (keeps_table_update_data R); solve [side]
    | apply (keeps_order_update R); solve [side]
    | apply (keeps_order_executeRaw R); solve [side]
    | apply (keeps_recompute_total R); solve [side]
    | apply (keeps_order_create R); solve [side]
    | apply (keeps_orderItem_create R); solve [side]
    | apply (keeps_orderItem_update R); solve [side]
    | apply (keeps_orderItem_delete R); solve [side]
    | apply (keeps_payment_create R); solve [side]
    | apply (keeps_bind R)
    | apply (keeps_transaction R)
    | apply Forall_cons; split
    | apply Forall_app; split
    | apply Forall_nil
    | apply Forall_fmap, Forall_true
    | progress intros
    | progress cbv zeta
    | case_match ].

Ltac frame R side := apply (keeps_tryCatch R); repeat frame_step R side.

(** Only settlement writes payments. *)
Lemma payments_handle (fk : bool) (session : Session) (req : Request) (db : DB) :
  (∀ body, req ≠ Settle body) →
  payments (handle fk session req db).2 = payments db.
Proof.
  intros Hreq. change (same payments db (handle fk session req db).2).
  destruct req; simpl;
    try (handlers; frame (same payments) ltac:(intros; reflexivity); fail).
  exfalso. eapply Hreq. reflexivity.
Qed.

(** ** Payment settlement *)

Lemma can_settle_inv (session : Session) :
  can_settle session = true →
  ∃ u, session = Some u
       ∧ negb (bool_decide (u_role u ∈ [OWNER; SUPERVISOR; FLOOR_STAFF])) = false.
Proof.
  unfold can_settle, role_in. destruct session as [u|]; [|done].
  intros H. exists u. rewrite H. auto.
Qed.

Lemma POST_payments_settled (session : Session) (body : PaymentBody) (db : DB)
    (orderId : string) (amount : Q) (method : PaymentMethod) (o : Order) :
  can_settle session = true →
  createPaymentSchema body = Some (orderId, amount, method) →
  orders db !! orderId = Some o →
  payment_of db orderId = None →
  POST_payments session body db = settled db orderId amount method o.
Proof.
  intros (u & -> & Hrole)%can_settle_inv Hschema Ho Hpay.
  unfold POST_payments, settled. rewrite Hrole, Hschema.
  unfold payment_create, order_update, table_update, table_updateMany.
  run_prisma. rewrite Ho, Hpay. simpl. rewrite Ho. simpl.
  destruct (o_tableId o) as [t|]; simpl; [|reflexivity].
  destruct (tables db !! t) as [tb|]; reflexivity.
Qed.

Lemma POST_payments_already_paid (session : Session) (body : PaymentBody)
    (db : DB) (orderId : string) (amount : Q) (method : PaymentMethod)
    (o : Order) (p : Payment) :
  can_settle session = true →
  createPaymentSchema body = Some (orderId, amount, method) →
  orders db !! orderId = Some o →
  payment_of db orderId = Some p →
  POST_payments session body db = (error 400 "Order already paid", db).
Proof.
  intros (u & -> & Hrole)%can_settle_inv Hschema Ho Hpay.
  unfold POST_payments. rewrite Hrole, Hschema.
  run_prisma. rewrite Ho, Hpay. reflexivity.
Qed.

(** Every outcome of the payment handler: either a settlement, or an
    answer other than 201 with the store as it was. *)
Lemma POST_payments_cases (session : Session) (body : PaymentBody) (db : DB) :
  (∃ orderId amount method o,
      can_settle session = true
      ∧ createPaymentSchema body = Some (orderId, amount, method)
      ∧ orders db !! orderId = Some o
      ∧ payment_of db orderId = None
      ∧ POST_payments session body db = settled db orderId amount method o)
  ∨ (status (POST_payments session body db).1 ≠ 201%nat
     ∧ (POST_payments session body db).2 = db).
Proof.
  destruct (can_settle session) eqn:Hs.
  - destruct (createPaymentSchema body) as [[[orderId amount] method]|] eqn:Hb.
    + destruct (orders db !! orderId) as [o|] eqn:Ho.
      * destruct (payment_of db orderId) as [p|] eqn:Hp.
        -- right. erewrite POST_payments_already_paid by eauto. simpl. auto.
        -- left. exists orderId, amount, method, o.
           eauto 10 using POST_payments_settled.
      * right. apply can_settle_inv in Hs as (u & -> & Hrole).
        unfold POST_payments. rewrite Hrole, Hb. run_prisma. rewrite Ho.
        simpl. auto.
    + right. apply can_settle_inv in Hs as (u & -> & Hrole).
      unfold POST_payments. rewrite Hrole, Hb. simpl. auto.
  - right. unfold can_settle, role_in in Hs. unfold POST_payments.
    destruct session as [u|]; simpl; [|auto].
    rewrite Hs. simpl. auto.
Qed.

Lemma payment_of_None (db : DB) (orderId : string) :
  payment_of db orderId = None → payments_for db orderId = [].
Proof.
  unfold payment_of, payments_for.
  induction (payments db) as [|p l IH]; simpl; [done|].
  rewrite filter_cons. case_bool_decide; [done|].
  intros Hfind. case_decide; [done|]. auto.
Qed.

Lemma settled_payments (db : DB) orderId amount method o :
  payments (settled db orderId amount method o).2
  = (payments db ++ [mkPayment orderId amount method])%list.
Proof. unfold settled. repeat case_match; reflexivity. Qed.

Lemma at_most_one_payment_handle (fk : bool) (session : Session)
    (req : Request) (db : DB) :
  at_most_one_payment db → at_most_one_payment (handle fk session req db).2.
Proof.
  intros Hdb. destruct req;
    try (unfold at_most_one_payment, payments_for;
         rewrite payments_handle by congruence; exact Hdb).
  simpl. match goal with |- context [POST_payments ?s ?b ?d] =>
    destruct (POST_payments_cases s b d)
      as [(orderId & amount & method & o & _ & _ & _ & Hnone & ->)|[_ ->]];
      [|exact Hdb]
  end.
  intros k. unfold payments_for. rewrite settled_payments, filter_app, length_app.
  rewrite filter_cons, filter_nil. simpl.
  case_decide as Hk; simpl.
  - subst k. apply payment_of_None in Hnone. unfold payments_for in Hnone.
    rewrite Hnone. simpl. lia.
  - specialize (Hdb k). unfold payments_for in Hdb. lia.
Qed.

Lemma at_most_one_payment_serve (fk : bool) (reqs : list (Session * Request))
    (db : DB) :
  at_most_one_payment db → at_most_one_payment (serve fk reqs db).
Proof.
  revert db. induction reqs as [|[s r] reqs IH]; intros db Hdb; simpl; [done|].
  apply IH, at_most_one_payment_handle, Hdb.
Qed.

(** C4: a settlement request for an order that already has a payment is
    answered 400 "Order already paid" and writes nothing: no payment is
    added, and orders and tables are as before.  Hence, over any sequence
    of requests to any of the handlers, a store holding at most one
    payment per order keeps holding at most one payment per order. *)
Theorem Settle_already_paid (session : Session) (body : PaymentBody) (db : DB)
    (orderId : string) (amount : Q) (method : PaymentMethod)
    (o : Order) (p : Payment) :
  can_settle session = true →
  createPaymentSchema body = Some (orderId, amount, method) →
  orders db !! orderId = Some o →
  payment_of db orderId = Some p →
  POST_payments session body db = (error 400 "Order already paid", db)
  ∧ ∀ fk reqs db0,
      at_most_one_payment db0 → at_most_one_payment (serve fk reqs db0).
Proof.
  intros Hs Hb Ho Hp. split.
  - eapply POST_payments_already_paid; eauto.
  - intros fk reqs db0. apply at_most_one_payment_serve.
Qed.

Lemma Settle_already_paid_witness :
  POST_payments waiter (mkPaymentBody "o1" 5 "CASH") sample_paid
  = (error 400 "Order already paid", sample_paid)
  ∧ ∀ fk reqs db0,
      at_most_one_payment db0 → at_most_one_payment (serve fk reqs db0).
Proof.
  apply (Settle_already_paid waiter (mkPaymentBody "o1" 5 "CASH") sample_paid
           "o1" 5 CASH sample_order (mkPayment "o1" 25 CARD));
    reflexivity.
Defined.

(** C5: when a settlement succeeds (201) on an order with a table, that
    table ends up VACANT, every table that was merged into it ends up
    VACANT with its merge link cleared, and all other tables are as
    before; when it succeeds on an order without a table, the table map is
    unchanged. *)
Theorem Settle_releases_table (session : Session) (body : PaymentBody) (db : DB)
    (orderId : string) (amount : Q) (method : PaymentMethod) (o : Order) :
  createPaymentSchema body = Some (orderId, amount, method) →
  orders db !! orderId = Some o →
  status (POST_payments session body db).1 = 201%nat →
  match o_tableId o with
  | Some t =>
    t_status <$> tables (POST_payments session body db).2 !! t = Some VACANT
    ∧ (∀ k tb, tables db !! k = Some tb → t_mergedWithId tb = Some t →
         ∃ tb', tables (POST_payments session body db).2 !! k = Some tb'
                ∧ t_mergedWithId tb' = None ∧ t_status tb' = VACANT)
    ∧ (∀ k tb, tables db !! k = Some tb → k ≠ t → t_mergedWithId tb ≠ Some t →
         tables (POST_payments session body db).2 !! k = Some tb)
  | None => tables (POST_payments session body db).2 = tables db
  end.
Proof.
  intros Hb Ho H201.
  destruct (POST_payments_cases session body db)
    as [(orderId' & amount' & method' & o' & _ & Hb' & Ho' & _ & Heq)|[Hne _]];
    [|done].
  rewrite Hb in Hb'. injection Hb' as <- <- <-.
  rewrite Ho in Ho'. injection Ho' as <-.
  rewrite Heq in *. clear Heq. unfold settled in *.
  destruct (o_tableId o) as [t|]; [|reflexivity].
  destruct (tables db !! t) as [tb0|] eqn:Ht; [|done]. simpl.
  unfold release_table. repeat split.
  - rewrite lookup_fmap, lookup_insert_eq. simpl. by case_bool_decide.
  - intros k tb Hk Hm. rewrite lookup_fmap.
    destruct (decide (k = t)) as [->|Hkt].
    + rewrite lookup_insert_eq. simpl. rewrite Hk in Ht. injection Ht as <-.
      rewrite Hm. rewrite bool_decide_eq_true_2 by done. eauto.
    + rewrite lookup_insert_ne, Hk by done. simpl.
      rewrite bool_decide_eq_true_2 by done. eauto.
  - intros k tb Hk Hkt Hm. rewrite lookup_fmap, lookup_insert_ne, Hk by done.
    simpl. by rewrite bool_decide_eq_false_2.
Qed.

Lemma Settle_releases_table_witness :
  t_status
    <$> tables (POST_payments waiter (mkPaymentBody "o1" 25 "CASH") sample_merged).2
        !! "A" = Some VACANT
  ∧ (∀ k tb, tables sample_merged !! k = Some tb → t_mergedWithId tb = Some "A" →
       ∃ tb',
         tables (POST_payments waiter (mkPaymentBody "o1" 25 "CASH") sample_merged).2
           !! k = Some tb'
         ∧ t_mergedWithId tb' = None ∧ t_status tb' = VACANT)
  ∧ (∀ k tb, tables sample_merged !! k = Some tb → k ≠ "A" →
       t_mergedWithId tb ≠ Some "A" →
       tables (POST_payments waiter (mkPaymentBody "o1" 25 "CASH") sample_merged).2
         !! k = Some tb).
Proof.
  apply (Settle_releases_table waiter (mkPaymentBody "o1" 25 "CASH")
           sample_merged "o1" 25 CASH sample_order); reflexivity.
Defined.

Lemma positive_spec (q : Q) : positive q = true ↔ 0 < q.
Proof.
  unfold positive. rewrite Qlt_alt. destruct (0 ?= q); split; congruence.
Qed.

(** C10: for an existing order without a payment, a settlement by a
    permitted caller with any positive amount and a valid method records
    the payment - one new payment of exactly that amount - and stores the
    order with status PAID, whatever the order's total and whatever its
    current status (CREATED and CANCELLED included); the total, the table,
    the notes, the creator and the discount columns of the order stay as
    they were.  The answer is 201 as soon as the order's table reference,
    if any, resolves. *)
Theorem Settle_any_amount_any_status (session : Session) (body : PaymentBody)
    (db : DB) (o : Order) (method : PaymentMethod) :
  can_settle session = true →
  nonempty (b_orderId body) = true →
  0 < b_amount body →
  parsePaymentMethod (b_method body) = Some method →
  orders db !! b_orderId body = Some o →
  payment_of db (b_orderId body) = None →
  payments (POST_payments session body db).2
  = (payments db ++ [mkPayment (b_orderId body) (b_amount body) method])%list
  ∧ (∃ o', orders (POST_payments session body db).2 !! b_orderId body = Some o'
           ∧ o_status o' = PAID
           ∧ o_totalAmount o' = o_totalAmount o
           ∧ o_tableId o' = o_tableId o
           ∧ o_notes o' = o_notes o
           ∧ o_createdById o' = o_createdById o
           ∧ o_discountType o' = o_discountType o
           ∧ o_discountValue o' = o_discountValue o
           ∧ o_discountReason o' = o_discountReason o
           ∧ o_discountAppliedBy o' = o_discountAppliedBy o)
  ∧ ((∀ t, o_tableId o = Some t → is_Some (tables db !! t)) →
     (POST_payments session body db).1 = json 201).
Proof.
  intros Hs Hid Hpos%positive_spec Hm Ho Hp.
  assert (Hb : createPaymentSchema body
               = Some (b_orderId body, b_amount body, method)).
  { unfold createPaymentSchema. rewrite Hid, Hpos, Hm. reflexivity. }
  rewrite (POST_payments_settled _ _ _ _ _ _ _ Hs Hb Ho Hp).
  split; [apply settled_payments|].
  assert (Horder : ∀ o2, o2 = order_set_status PAID o →
            o_status o2 = PAID
            ∧ o_totalAmount o2 = o_totalAmount o
            ∧ o_tableId o2 = o_tableId o
            ∧ o_notes o2 = o_notes o
            ∧ o_createdById o2 = o_createdById o
            ∧ o_discountType o2 = o_discountType o
            ∧ o_discountValue o2 = o_discountValue o
            ∧ o_discountReason o2 = o_discountReason o
            ∧ o_discountAppliedBy o2 = o_discountAppliedBy o).
  { intros o2 ->. simpl. done. }
  unfold settled.
  destruct (o_tableId o) as [t|]; simpl.
  - destruct (tables db !! t) as [tb|] eqn:Ht; simpl.
    + rewrite lookup_insert_eq. split; [|done]. eexists. split; [done|].
      by apply Horder.
    + rewrite lookup_insert_eq. split.
      * eexists. split; [done|]. by apply Horder.
      * intros H. destruct (H t eq_refl) as [? ?]. congruence.
  - rewrite lookup_insert_eq. split; [|done]. eexists. split; [done|].
    by apply Horder.
Qed.

Lemma Settle_any_amount_any_status_witness :
  payments (POST_payments waiter (mkPaymentBody "o1" (1 # 100) "CASH") sample_db).2
  = (payments sample_db ++ [mkPayment "o1" (1 # 100) CASH])%list
  ∧ ∃ o', orders (POST_payments waiter (mkPaymentBody "o1" (1 # 100) "CASH")
                    sample_db).2 !! "o1" = Some o'
          ∧ o_status o' = PAID
          ∧ o_totalAmount o' = Num 25.
Proof.
  destruct (Settle_any_amount_any_status waiter
              (mkPaymentBody "o1" (1 # 100) "CASH") sample_db sample_order CASH
              eq_refl eq_refl eq_refl eq_refl eq_refl eq_refl)
    as (Hpay & (o' & Ho' & Hst & Htotal & _) & _).
  split; [exact Hpay|]. exists o'. auto.
Defined.

(** ** Pricing: what the stored total is *)





Lemma order_create_Some (fk : bool) (id : string) (o : Order)
    (its : list OrderItem) (db db' : DB) (r : unit) :
  order_create fk id o its db = (Some r, db') →
  db' = with_orderItems (with_orders db (<[id := o]> (orders db)))
                        (orderItems db ++ its)
  ∧ orders db !! id = None
  ∧ (fk = true → refs_exist db o its = true).
Proof.
  unfold order_create. case_bool_decide as Hid; [done|].
  destruct (negb (item_ids_free db its)); [done|].
  destruct fk; simpl.
  - destruct (refs_exist db o its); simpl; [|done].
    intros [= <-]. split; [done|]. split; [|done].
    by apply eq_None_not_Some.
  - intros [= <-]. split; [done|]. split; [|done].
    by apply eq_None_not_Some.
Qed.

Lemma order_create_None (fk : bool) (id : string) (o : Order)
    (its : list OrderItem) (db db' : DB) :
  order_create fk id o its db = (None, db') → db' = db.
Proof.
  unfold order_create. repeat (case_match; simpl); congruence.
Qed.












(** ** Discount round trip *)



(** ** Table registry: merge and unmerge *)

Lemma can_seat_inv (session : Session) :
  can_seat session = true →
  ∃ u, session = Some u
       ∧ negb (bool_decide (u_role u ∈ [OWNER; SUPERVISOR; FLOOR_STAFF])) = false.
Proof. apply can_settle_inv. Qed.

Lemma with_tables_id (db : DB) : with_tables db (tables db) = db.
Proof. destruct db; reflexivity. Qed.

Lemma alter_as_insert (g : Table → Table) (id : string) (t : Table)
    (m : gmap string Table) :
  m !! id = Some t → <[id := g t]> m = alter g id m.
Proof.
  intros Hid. apply map_eq. intros k. destruct (decide (k = id)) as [->|Hne].
  - by rewrite lookup_insert_eq, lookup_alter_eq, Hid.
  - by rewrite lookup_insert_ne, lookup_alter_ne.
Qed.

(** A run of [update] calls, one per id of [l], each writing [g]. *)
Lemma run_all_update_each (g : Table → Table) (l : list string) (db : DB) :
  Forall (λ id, is_Some (tables db !! id)) l →
  run_all ((λ id, table_update id g) <$> l) db
  = (Some tt, with_tables db (foldl (λ m id, alter g id m) (tables db) l)).
Proof.
  revert db. induction l as [|id l IH]; intros db Hall; simpl.
  - by rewrite with_tables_id.
  - apply Forall_cons in Hall as [[t Ht] Hall].
    unfold mbind, prisma_bind, table_update at 1. rewrite Ht.
    rewrite IH; simpl.
    + by rewrite (alter_as_insert _ _ _ _ Ht).
    + eapply Forall_impl; [exact Hall|]. intros k Hk. simpl in *.
      by apply lookup_insert_is_Some'; right.
Qed.

Lemma run_all_update_each_None (g : Table → Table) (l : list string) (db : DB) :
  ¬ Forall (λ id, is_Some (tables db !! id)) l →
  (run_all ((λ id, table_update id g) <$> l) db).1 = None.
Proof.
  revert db. induction l as [|id l IH]; intros db Hall; simpl.
  - destruct Hall. constructor.
  - unfold mbind, prisma_bind, table_update at 1.
    destruct (tables db !! id) as [t|] eqn:Ht; [|reflexivity].
    apply IH. intros Hl. apply Hall. constructor; [by eexists|].
    eapply Forall_impl; [exact Hl|]. intros k Hk. simpl in *.
    apply lookup_insert_is_Some' in Hk as [->|Hk]; [by eexists|done].
Qed.

Lemma run_all_app (a b : list (Prisma unit)) (db : DB) :
  run_all (a ++ b) db
  = match run_all a db with
    | (Some _, db1) => run_all b db1
    | (None, db1) => (None, db1)
    end.
Proof.
  revert db. induction a as [|op a IH]; intros db; simpl; [done|].
  unfold mbind, prisma_bind. destruct (op db) as [[[]|] db1]; [apply IH|done].
Qed.

(** Lookup after a run of [alter g] over [l], for an idempotent [g]. *)
Lemma lookup_foldl_alter (g : Table → Table) (l : list string)
    (m : gmap string Table) (k : string) :
  (∀ t, g (g t) = g t) →
  foldl (λ m id, alter g id m) m l !! k
  = if decide (k ∈ l) then g <$> m !! k else m !! k.
Proof.
  intros Hg. revert m. induction l as [|id l IH]; intros m; simpl; [done|].
  rewrite IH. destruct (decide (k = id)) as [->|Hne].
  - rewrite lookup_alter_eq. destruct (decide (id ∈ id :: l)) as [_|[]]; [|left].
    case_decide; [|done]. destruct (m !! id); simpl; [|done]. by rewrite Hg.
  - rewrite lookup_alter_ne by done.
    destruct (decide (k ∈ l)) as [Hin|Hin], (decide (k ∈ id :: l)) as [Hin'|Hin'];
      try done.
    + destruct Hin'. by right.
    + apply elem_of_cons in Hin' as [?|?]; done.
Qed.

Lemma lookup_merged (primary : string) (others : list string)
    (m : gmap string Table) (k : string) :
  merged primary others m !! k
  = (if decide (k ∈ others) then table_set_merge (Some primary) OCCUPIED
     else if decide (k = primary) then table_set_status OCCUPIED
     else λ t, t) <$> m !! k.
Proof.
  unfold merged. rewrite lookup_foldl_alter by done.
  destruct (decide (k = primary)) as [->|Hne].
  - rewrite lookup_alter_eq. case_decide; [|done]. by destruct (m !! primary).
  - rewrite lookup_alter_ne by done. case_decide; [done|].
    by destruct (m !! k).
Qed.

Lemma POST_tables_merge_result (session : Session) (primary : string)
    (others : list string) (db : DB) :
  can_seat session = true →
  others ≠ [] →
  POST_tables_merge session (primary :: others) db
  = if decide (Forall (λ id, is_Some (tables db !! id)) (primary :: others))
    then (json 200, with_tables db (merged primary others (tables db)))
    else (error 500 "Failed to merge tables", db).
Proof.
  intros (u & -> & Hrole)%can_seat_inv Hne. unfold POST_tables_merge.
  rewrite Hrole. unfold mergeTablesSchema.
  rewrite bool_decide_eq_true_2 by (destruct others; [done|simpl; lia]).
  unfold tryCatch, mbind at 1, prisma_bind at 1, transaction.
  change (table_update primary (table_set_status OCCUPIED)
          :: ((λ id, table_update id (table_set_merge (Some primary) OCCUPIED))
                <$> others))
    with ([table_update primary (table_set_status OCCUPIED)]
          ++ ((λ id, table_update id (table_set_merge (Some primary) OCCUPIED))
                <$> others))%list.
  rewrite run_all_app. simpl. unfold mbind, prisma_bind, table_update at 1.
  destruct (tables db !! primary) as [tp|] eqn:Hp; simpl.
  - set (db1 := with_tables db _).
    destruct (decide (Forall (λ id, is_Some (tables db1 !! id)) others))
      as [Hall|Hall].
    + rewrite (run_all_update_each _ _ _ Hall). simpl.
      rewrite decide_True.
      * unfold merged. by rewrite (alter_as_insert _ _ _ _ Hp).
      * constructor; [by eexists|]. eapply Forall_impl; [exact Hall|].
        intros k Hk. simpl in *.
        apply lookup_insert_is_Some' in Hk as [->|Hk]; [by eexists|done].
    + assert (Hnone := run_all_update_each_None
                         (table_set_merge (Some primary) OCCUPIED) _ _ Hall).
      destruct (run_all _ db1) as [[[]|] db2]; [done|]. simpl.
      rewrite decide_False; [done|]. intros [_ Hall']%Forall_cons. apply Hall.
      eapply Forall_impl; [exact Hall'|]. intros k Hk. simpl in *.
      by apply lookup_insert_is_Some'; right.
  - rewrite decide_False; [done|]. intros [[? ?] _]%Forall_cons. congruence.
Qed.

(** C7, as stated, fails: table ["B"] is already merged into ["A"], yet
    merging ["C"; "B"] is answered 200 and re-links ["B"] to ["C"]. *)
Lemma Merge_accepts_already_merged :
  t_mergedWithId <$> tables sample_merged !! "B" = Some (Some "A")
  ∧ (POST_tables_merge owner ["C"; "B"] sample_merged).1 = json 200
  ∧ t_mergedWithId
      <$> tables (POST_tables_merge owner ["C"; "B"] sample_merged).2 !! "B"
    = Some (Some "C")
  ∧ tables (POST_tables_merge owner ["C"; "B"] sample_merged).2
    ≠ tables sample_merged.
Proof.
  repeat split; try (vm_compute; reflexivity).
  intros H. apply (f_equal (λ m, t_mergedWithId <$> m !! "B")) in H.
  vm_compute in H. discriminate.
Qed.

(** C7 (amended): Merge is rejected with the 400 issue list, writing
    nothing, when fewer than 2 ids are given.  With 2 or more ids that all
    name existing tables it succeeds whether or not some of them are
    already merged: the first id ends up OCCUPIED, every other id ends up
    OCCUPIED with mergedWithId set to the first (a previous link is
    overwritten), and tables outside the list are untouched.  When some id
    names no table the transaction is rolled back: the answer is the
    generic 500 and no table changes. *)
Theorem Merge_without_merged_check (session : Session) (tableIds : list string)
    (db : DB) :
  can_seat session = true →
  ((length tableIds < 2)%nat →
     POST_tables_merge session tableIds db = (issues, db))
  ∧ (∀ primary others,
       tableIds = primary :: others → others ≠ [] →
       Forall (λ id, is_Some (tables db !! id)) tableIds →
       (POST_tables_merge session tableIds db).1 = json 200
       ∧ t_status <$> tables (POST_tables_merge session tableIds db).2 !! primary
         = Some OCCUPIED
       ∧ (∀ k, k ∈ others →
            ∃ tb', tables (POST_tables_merge session tableIds db).2 !! k = Some tb'
                   ∧ t_mergedWithId tb' = Some primary
                   ∧ t_status tb' = OCCUPIED)
       ∧ (∀ k, k ∉ tableIds →
            tables (POST_tables_merge session tableIds db).2 !! k
            = tables db !! k))
  ∧ (∀ primary others,
       tableIds = primary :: others → others ≠ [] →
       ¬ Forall (λ id, is_Some (tables db !! id)) tableIds →
       POST_tables_merge session tableIds db
       = (error 500 "Failed to merge tables", db)).
Proof.
  intros Hs. split; [|split].
  - intros Hlen. apply can_seat_inv in Hs as (u & -> & Hrole).
    unfold POST_tables_merge, mergeTablesSchema. rewrite Hrole.
    rewrite bool_decide_eq_false_2 by lia. reflexivity.
  - intros primary others -> Hne Hall.
    rewrite (POST_tables_merge_result _ _ _ _ Hs Hne).
    rewrite decide_True by done. simpl. split; [done|].
    apply Forall_cons in Hall as [[tp Hp] Hall]. repeat split.
    + rewrite lookup_merged, Hp. simpl. repeat case_decide; done.
    + intros k Hk. rewrite lookup_merged. rewrite decide_True by done.
      rewrite Forall_forall in Hall. destruct (Hall k Hk) as [tk ->].
      simpl. eauto.
    + intros k Hk. rewrite lookup_merged.
      rewrite decide_False by (intros ?; apply Hk; by right).
      rewrite decide_False by (intros ->; apply Hk; by left).
      by destruct (tables db !! k).
  - intros primary others -> Hne Hall.
    rewrite (POST_tables_merge_result _ _ _ _ Hs Hne).
    by rewrite decide_False.
Qed.

Lemma Merge_without_merged_check_witness :
  (POST_tables_merge owner ["C"; "B"] sample_merged).1 = json 200
  ∧ t_status
      <$> tables (POST_tables_merge owner ["C"; "B"] sample_merged).2 !! "C"
    = Some OCCUPIED
  ∧ (∀ k, k ∈ ["B"] →
       ∃ tb',
         tables (POST_tables_merge owner ["C"; "B"] sample_merged).2 !! k
         = Some tb'
         ∧ t_mergedWithId tb' = Some "C"
         ∧ t_status tb' = OCCUPIED)
  ∧ (∀ k, k ∉ ["C"; "B"] →
       tables (POST_tables_merge owner ["C"; "B"] sample_merged).2 !! k
       = tables sample_merged !! k).
Proof.
  destruct (Merge_without_merged_check owner ["C"; "B"] sample_merged eq_refl)
    as (_ & Hmerge & _).
  apply (Hmerge "C" ["B"]).
  - reflexivity.
  - discriminate.
  - repeat constructor; eexists; vm_compute; reflexivity.
Defined.

(** ** The star-merge invariant *)

Lemma star_alt (m : gmap string Table) :
  star m
  ↔ map_Forall (λ a ta, t_mergedWithId ta = None
                        ∨ map_Forall (λ _ tc, t_mergedWithId tc ≠ Some a) m) m.
Proof.
  split.
  - intros Hstar a ta Ha. destruct (t_mergedWithId ta) as [p|] eqn:Hp; [|by left].
    right. intros c tc Hc. by eapply Hstar.
  - intros Hall a ta p c tc Ha Hp Hc.
    destruct (Hall a ta Ha) as [Hnone|Hnot]; [congruence|]. by eapply Hnot.
Qed.

Lemma unlinks_refl (m : gmap string Table) : unlinks m m.
Proof. intros k tb Hk. eauto. Qed.

#[global] Instance unlinked_refl : Reflexive unlinked.
Proof. intros db. apply unlinks_refl. Qed.

#[global] Instance unlinked_trans : Transitive unlinked.
Proof.
  intros a b c Hab Hbc k tc Hk.
  destruct (Hbc k tc Hk) as (tb & Hb & Hbc').
  destruct (Hab k tb Hb) as (ta & Ha & Hab').
  exists ta. split; [done|]. destruct Hbc', Hab'; [left|right|right|right]; congruence.
Qed.

Lemma star_unlinks (m m' : gmap string Table) :
  star m → unlinks m m' → star m'.
Proof.
  intros Hstar Hun a ta p c tc Ha Hp Hc Hlink.
  destruct (Hun a ta Ha) as (ta0 & Ha0 & [Hsame|Hnone]); [|congruence].
  destruct (Hun c tc Hc) as (tc0 & Hc0 & [Hsame'|Hnone']); [|congruence].
  eapply (Hstar a ta0 p c tc0); congruence.
Qed.

Lemma link_safe_set_status s : link_safe (table_set_status s).
Proof. intros t. by left. Qed.

Lemma link_safe_unmerge s : link_safe (table_set_merge None s).
Proof. intros t. by right. Qed.

Lemma unlinked_orders db o : unlinked db (with_orders db o).
Proof. apply unlinks_refl. Qed.
Lemma unlinked_items db l : unlinked db (with_orderItems db l).
Proof. apply unlinks_refl. Qed.
Lemma unlinked_payments db l : unlinked db (with_payments db l).
Proof. apply unlinks_refl. Qed.

Lemma unlinks_table_update (id : string) (h : Table → Table) :
  link_safe h → keeps unlinked (table_update id h).
Proof.
  intros Hh db. unfold table_update.
  destruct (tables db !! id) as [t|] eqn:Ht; simpl; [|reflexivity].
  intros k tb'. simpl. destruct (decide (k = id)) as [->|Hne].
  - rewrite lookup_insert_eq. intros [= <-]. eauto.
  - rewrite lookup_insert_ne by done. eauto.
Qed.

Lemma unlinks_table_updateMany (w : Table → bool) (h : Table → Table) :
  link_safe h → keeps unlinked (table_updateMany w h).
Proof.
  intros Hh db k tb'. unfold table_updateMany, put. simpl.
  rewrite lookup_fmap. destruct (tables db !! k) as [t|]; simpl; [|done].
  intros [= <-]. exists t. split; [done|]. destruct (w t); [apply Hh|by left].
Qed.

Lemma updateTableSchema_snd (body : TableBody) data :
  updateTableSchema body = Some data → data.2 = b_mergedWithId body.
Proof.
  unfold updateTableSchema. destruct (b_status body) as [s|]; simpl.
  - destruct (parseTableStatus s); simpl; by intros [= <-].
  - by intros [= <-].
Qed.

Lemma unlinks_table_update_data (fk : bool) (id : string) data :
  data.2 = None → keeps unlinked (table_update_data fk id data).
Proof.
  intros Hd db. unfold table_update_data. rewrite Hd. rewrite andb_false_r.
  apply unlinks_table_update. intros t. by left.
Qed.

Ltac unlinks_side :=
  first [ apply unlinked_orders | apply unlinked_items | apply unlinked_payments
        | intros; apply unlinked_orders | intros; apply unlinked_items
        | intros; apply unlinked_payments ].

Ltac unlinks_tables :=
  repeat first
    [ apply unlinks_table_update; [apply link_safe_set_status]
    | apply unlinks_table_update; [apply link_safe_unmerge]
    | apply unlinks_table_updateMany; [apply link_safe_unmerge]
    | frame_step unlinked unlinks_side ].

Lemma handle_unlinks (fk : bool) (session : Session) (req : Request) (db : DB) :
  ¬ writes_links req → unlinked db (handle fk session req db).2.
Proof.
  intros Hreq. destruct req; simpl in *;
    try (handlers; apply (keeps_tryCatch unlinked); unlinks_tables; fail).
  - tauto.
  - handlers. apply (keeps_tryCatch unlinked). unlinks_tables.
    apply unlinks_table_update_data.
    erewrite updateTableSchema_snd by eauto.
    destruct (b_mergedWithId _); [|done]. destruct Hreq. done.
Qed.

Lemma star_merged (primary : string) (others : list string)
    (m : gmap string Table) :
  star m → merge_guard primary others m → star (merged primary others m).
Proof.
  intros Hstar (Hp & Hunmerged & Htargets) a ta p c tc Ha Hlink Hc Hca.
  rewrite lookup_merged in Ha, Hc.
  destruct (m !! c) as [tc0|] eqn:Hc0; simpl in Hc; [|done].
  injection Hc as <-.
  destruct (m !! a) as [ta0|] eqn:Ha0; simpl in Ha; [|done].
  injection Ha as <-.
  destruct (decide (c ∈ others)) as [Hin|Hout].
  - simpl in Hca. injection Hca as <-.
    rewrite decide_False in Hlink by done. rewrite decide_True in Hlink by done.
    simpl in Hlink. rewrite Ha0 in Hunmerged. simpl in Hunmerged. congruence.
  - assert (Hc' : t_mergedWithId tc0 = Some a).
    { by destruct (decide (c = primary)). }
    assert (Ha' : a ∉ others).
    { intros Hin. apply (Htargets c tc0 Hc0). rewrite Hc'.
      by apply list_elem_of_fmap_2. }
    rewrite decide_False in Hlink by done.
    assert (Hlink' : t_mergedWithId ta0 = Some p).
    { by destruct (decide (a = primary)). }
    by eapply (Hstar a ta0 p c tc0).
Qed.

Lemma POST_tables_merge_tables (session : Session) (tableIds : list string)
    (db : DB) :
  tables (POST_tables_merge session tableIds db).2 = tables db
  ∨ ∃ primary others,
      tableIds = primary :: others
      ∧ tables (POST_tables_merge session tableIds db).2
        = merged primary others (tables db).
Proof.
  destruct (can_seat session) eqn:Hs.
  - destruct tableIds as [|primary [|o others]].
    + left. apply can_seat_inv in Hs as (u & -> & Hrole).
      unfold POST_tables_merge. by rewrite Hrole.
    + left. apply can_seat_inv in Hs as (u & -> & Hrole).
      unfold POST_tables_merge. by rewrite Hrole.
    + rewrite (POST_tables_merge_result _ _ _ _ Hs) by done.
      case_decide; [right|left]; eauto.
  - left. unfold can_seat, role_in in Hs. unfold POST_tables_merge.
    destruct session as [u|]; [|done]. by rewrite Hs.
Qed.

(** C6, as stated, fails: starting from three unmerged tables, merging
    ["A"; "B"] and then ["B"; "C"] (both answered 200) leaves ["C"] merged
    into ["B"] while ["B"] is merged into ["A"]: a chain. *)
Lemma Merge_builds_chain :
  star (tables sample_empty)
  ∧ (handle true owner (MergeTables ["A"; "B"]) sample_empty).1 = json 200
  ∧ (handle true owner (MergeTables ["B"; "C"])
       (handle true owner (MergeTables ["A"; "B"]) sample_empty).2).1 = json 200
  ∧ ¬ star (tables (serve true [ (owner, MergeTables ["A"; "B"]);
                                 (owner, MergeTables ["B"; "C"]) ]
                      sample_empty)).
Proof.
  split; [|split; [|split]].
  - apply star_alt, (bool_decide_unpack _). vm_compute. exact I.
  - vm_compute. reflexivity.
  - vm_compute. reflexivity.
  - intros Hstar.
    apply (Hstar "B" (mkTable 2 4 OCCUPIED (Some "A")) "A"
                 "C" (mkTable 3 2 OCCUPIED (Some "B")));
      vm_compute; reflexivity.
Qed.

(** C6 (amended): the star-merge invariant is preserved by Unmerge, by
    Settle, by a status-only table update and by every other request that
    writes no merge link; Merge preserves it when the primary is not itself
    merged and not repeated among the other ids and none of the other ids
    is currently a merge target.  Merge checks none of these conditions, so
    the invariant is not an invariant of all reachable states. *)
Theorem star_preserved (fk : bool) (session : Session) (req : Request) (db : DB) :
  star (tables db) →
  match req with
  | MergeTables [] => True
  | MergeTables (primary :: others) => merge_guard primary others (tables db)
  | UpdateTable body => b_mergedWithId body = None
  | _ => True
  end →
  star (tables (handle fk session req db).2).
Proof.
  intros Hstar Hguard.
  destruct (decide (writes_links req)) as [Hw|Hw].
  - destruct req; simpl in Hw; try done.
    simpl. destruct (POST_tables_merge_tables session tableIds db)
      as [->|(primary & others & -> & ->)]; [done|].
    by apply star_merged.
  - eapply star_unlinks; [exact Hstar|]. by apply handle_unlinks.
Qed.

Lemma star_preserved_witness :
  star (tables (handle true waiter (MergeTables ["A"; "B"; "C"]) sample_empty).2).
Proof.
  apply (star_preserved true waiter (MergeTables ["A"; "B"; "C"]) sample_empty).
  - apply star_alt, (bool_decide_unpack _). vm_compute. exact I.
  - apply (bool_decide_unpack _). vm_compute. exact I.
Defined.

(** ** Order creation and references *)

Lemma quantity_check (q : Q) :
  is_int q && positive q = true ↔ positive_integer q.
Proof.
  rewrite andb_true_iff, positive_spec. unfold is_int. rewrite Qeq_bool_iff.
  split.
  - intros [Hint Hpos]. exists (Qfloor q). split; [|done].
    rewrite Zlt_Qlt. by rewrite <- Hint.
  - intros (n & Hn & Hq). split.
    + rewrite Hq at 2. by rewrite Qfloor_Z.
    + rewrite Hq. change (inject_Z 0 < inject_Z n). by rewrite <- Zlt_Qlt.
Qed.

Lemma POST_orders_valid (fk : bool) (cuid : nat → string) (session : Session)
    (body : CreateOrderBody) (db : DB) (data : CreateOrderData) :
  can_seat session = true →
  createOrderSchema body = Some data →
  ∃ u, session = Some u
  ∧ POST_orders fk cuid session body db
    = match order_create fk (cuid 0%nat) (new_order u data db)
              (new_items cuid data db) db with
      | (Some _, db1) =>
        match tables db !! d_tableId data with
        | Some tb =>
          (json 201,
           with_tables db1
             (<[d_tableId data := table_set_status OCCUPIED tb]> (tables db)))
        | None => (error 500 "Failed to create order", db1)
        end
      | (None, _) => (error 500 "Failed to create order", db)
      end.
Proof.
  intros (u & -> & Hrole)%can_seat_inv Hdata. exists u. split; [done|].
  unfold POST_orders. rewrite Hrole, Hdata.
  unfold menuItem_findMany. run_prisma.
  fold (menuItemPrices db data). fold (new_order u data db).
  fold (new_items cuid data db).
  destruct (order_create _ _ _ _ db) as [[[]|] db1] eqn:Hc; simpl.
  - apply order_create_Some in Hc as (-> & _ & _).
    unfold table_update. simpl. by destruct (tables db !! d_tableId data).
  - by apply order_create_None in Hc as ->.
Qed.

(** A menu item missing from the catalogue is priced at 0. *)
Lemma or0_missing (db : DB) (data : CreateOrderData) (id : string) :
  menuItems db !! id = None → or0 (menuItemPrices db data !! id) = 0.
Proof.
  intros Hid. unfold menuItemPrices. rewrite lookup_fmap.
  rewrite (proj2 (map_lookup_filter_None _ _ _)); [done|]. by left.
Qed.

Lemma refs_exist_dangling (db : DB) (u : User) (cuid : nat → string)
    (data : CreateOrderData) :
  tables db !! d_tableId data = None
  ∨ Exists (λ it, menuItems db !! d_menuItemId it = None) (d_items data) →
  refs_exist db (new_order u data db) (new_items cuid data db) = false.
Proof.
  intros [Ht|Hm]; unfold refs_exist; simpl.
  - rewrite Ht. rewrite bool_decide_eq_false_2; [done|]. by intros [? ?].
  - apply andb_false_iff. right. apply not_true_is_false. intros Hall.
    rewrite forallb_forall in Hall.
    apply Exists_exists in Hm as (it & Hin & Hnone).
    apply list_elem_of_lookup in Hin as [i Hi].
    specialize (Hall (mkOrderItem (cuid (S i)) (cuid 0%nat) (d_menuItemId it)
                        (d_quantity it) (d_notes it) (default [] (d_allergies it))
                        (or0 (menuItemPrices db data !! d_menuItemId it))
                        ItemPENDING)).
    simpl in Hall. rewrite Hnone in Hall.
    rewrite bool_decide_eq_false_2 in Hall by (by intros [? ?]).
    assert (false = true); [|done]. apply Hall.
    apply list_elem_of_In. unfold new_items.
    apply list_elem_of_lookup. exists i. rewrite list_lookup_imap, Hi. done.
Qed.

(** The menu-item half of C8: the menu has no ["pizza"], yet an order for
    one pizza is not answered with a not-found error.  Where the store
    does not enforce references the order is created (201) with the pizza
    snapshotted at price 0; where it does, the request ends in the generic
    500 of the handler's catch-all.  The add-item handler answers the same
    menu item with 404 "Menu item not found" ([POST_order_items]). *)
Lemma CreateOrder_missing_menu_item :
  menuItems sample_empty !! "pizza" = None
  ∧ (POST_orders false sample_cuid waiter body_pizza sample_empty).1 = json 201
  ∧ orders (POST_orders false sample_cuid waiter body_pizza sample_empty).2 !! "0"
    = Some (mkOrder (Some "A") CREATED None (Num 0) "u2" None None None None)
  ∧ orderItems (POST_orders false sample_cuid waiter body_pizza sample_empty).2
    = [ mkOrderItem "1" "0" "pizza" 1 None [] 0 ItemPENDING ]
  ∧ POST_orders true sample_cuid waiter body_pizza sample_empty
    = (error 500 "Failed to create order", sample_empty)
  ∧ POST_order_items true sample_cuid waiter "o1"
      (mkOrderItemBody "pizza" 1 None None) sample_db
    = (error 404 "Menu item not found", sample_db).
Proof. repeat split; vm_compute; reflexivity. Qed.

(** C8, as stated, fails: no table has the id ["Z"], yet an order of one
    burger for table ["Z"] is not answered with a not-found error but with
    the generic 500 of the handler's catch-all; and where the store does
    not enforce references the order and its item, with the price
    snapshot, are written before the table update rejects. *)
Lemma CreateOrder_missing_table :
  tables sample_empty !! "Z" = None
  ∧ POST_orders true sample_cuid waiter body_no_table sample_empty
    = (error 500 "Failed to create order", sample_empty)
  ∧ (POST_orders false sample_cuid waiter body_no_table sample_empty).1
    = error 500 "Failed to create order"
  ∧ orders (POST_orders false sample_cuid waiter body_no_table sample_empty).2
      !! "0"
    = Some (mkOrder (Some "Z") CREATED None (Num 10) "u2" None None None None)
  ∧ orderItems (POST_orders false sample_cuid waiter body_no_table sample_empty).2
    = [ mkOrderItem "1" "0" "burger" 1 None [] 10 ItemPENDING ].
Proof. repeat split; vm_compute; reflexivity. Qed.

(** C8 (amended): CreateOrder is rejected with the 400 issue list, writing
    nothing, when any item quantity is not a positive integer.  The
    handler does not look the table up: a request naming a table that does
    not exist fails through the store, with the generic 500 "Failed to
    create order", and creates nothing whenever the store enforces
    references ([fk]). *)
Theorem CreateOrder_reference_checks (fk : bool) (cuid : nat → string)
    (session : Session) (body : CreateOrderBody) (db : DB) :
  can_seat session = true →
  (Exists (λ b, ¬ positive_integer (b_quantity b)) (b_items body) →
     POST_orders fk cuid session body db = (issues, db))
  ∧ ∀ data,
      createOrderSchema body = Some data →
      tables db !! d_tableId data = None →
      (POST_orders fk cuid session body db).1
      = error 500 "Failed to create order"
      ∧ (fk = true →
         POST_orders fk cuid session body db
         = (error 500 "Failed to create order", db)).
Proof.
  intros Hs. split.
  - intros Hq. apply can_seat_inv in Hs as (u & -> & Hrole).
    unfold POST_orders. rewrite Hrole.
    assert (createOrderSchema body = None) as ->; [|done].
    unfold createOrderSchema. destruct (_ && _); [|done].
    rewrite (mapM_None_2 addOrderItemSchema (b_items body)); [done|].
    eapply Exists_impl; [exact Hq|]. intros b Hb. simpl in Hb.
    unfold addOrderItemSchema.
    destruct (is_int (b_quantity b) && positive (b_quantity b)) eqn:Hcheck.
    + destruct Hb. by apply quantity_check.
    + rewrite <- andb_assoc, Hcheck, andb_false_r. done.
  - intros data Hdata Htable.
    destruct (POST_orders_valid fk cuid _ _ db _ Hs Hdata) as (u & _ & ->).
    split.
    + rewrite Htable. repeat case_match; done.
    + intros ->. unfold order_create.
      rewrite (refs_exist_dangling _ _ _ _ (or_introl Htable)). simpl.
      repeat case_match; done.
Qed.

Lemma CreateOrder_reference_checks_witness :
  POST_orders true sample_cuid waiter body_zero sample_empty
  = (issues, sample_empty)
  ∧ POST_orders true sample_cuid waiter body_no_table sample_empty
    = (error 500 "Failed to create order", sample_empty).
Proof.
  split.
  - apply (CreateOrder_reference_checks true sample_cuid waiter body_zero
             sample_empty eq_refl).
    constructor. intros (n & Hn & Hq). unfold Qeq in Hq. simpl in Hq. lia.
  - eapply (CreateOrder_reference_checks true sample_cuid waiter body_no_table
              sample_empty eq_refl).
    + reflexivity.
    + reflexivity.
    + reflexivity.
Defined.

(** * Further properties of the handlers *)

(** ** Who may do what *)



(** X1: without a session every request is answered 401 "Unauthorized" and
    nothing is written. *)
Theorem unauthenticated_rejected (fk : bool) (req : Request) (db : DB) :
  handle fk None req db = (error 401 "Unauthorized", db).
Proof. destruct req; reflexivity. Qed.






(** ** Removing an item *)



(** ** Item status and the order *)





(** ** Unmerging *)

(** The ids the unmerge handler finds merged into [tableId]. *)
Definition satellites (tableId : string) (m : gmap string Table) : list string :=
  (map_to_list
     (filter (λ kt : string * Table,
                bool_decide (t_mergedWithId kt.2 = Some tableId) = true) m)).*1.

(** The table map a successful unmerge leaves. *)
Definition unmerged (tableId : string) (m : gmap string Table)
    : gmap string Table :=
  alter (table_set_status VACANT) tableId
    (foldl (λ m id, alter (table_set_merge None VACANT) id m) m
           (satellites tableId m)).

Lemma elem_of_satellites (tableId : string) (m : gmap string Table) (k : string) :
  k ∈ satellites tableId m
  ↔ ∃ tb, m !! k = Some tb ∧ t_mergedWithId tb = Some tableId.
Proof.
  unfold satellites. rewrite list_elem_of_fmap. split.
  - intros ([k' tb] & -> & Hin). apply elem_of_map_to_list in Hin.
    apply map_lookup_filter_Some in Hin as [Hk Hm]. simpl in *.
    apply bool_decide_eq_true in Hm. eauto.
  - intros (tb & Hk & Hm). exists (k, tb). split; [done|].
    apply elem_of_map_to_list, map_lookup_filter_Some. split; [done|].
    simpl. by apply bool_decide_eq_true.
Qed.

Lemma lookup_unmerged (tableId : string) (m : gmap string Table) (k : string) :
  unmerged tableId m !! k
  = (λ tb,
       let tb1 := if bool_decide (t_mergedWithId tb = Some tableId)
                  then table_set_merge None VACANT tb else tb in
       if bool_decide (k = tableId) then table_set_status VACANT tb1 else tb1)
      <$> m !! k.
Proof.
  unfold unmerged.
  assert (Hfold : foldl (λ m id, alter (table_set_merge None VACANT) id m) m
                    (satellites tableId m) !! k
                  = (λ tb, if bool_decide (t_mergedWithId tb = Some tableId)
                           then table_set_merge None VACANT tb else tb)
                      <$> m !! k).
  { rewrite lookup_foldl_alter by done.
    destruct (m !! k) as [tb|] eqn:Hk; simpl; [|by case_decide].
    case_decide as Hin.
    - apply elem_of_satellites in Hin as (tb' & Hk' & Hm).
      rewrite Hk in Hk'. injection Hk' as <-.
      by rewrite bool_decide_eq_true_2.
    - rewrite bool_decide_eq_false_2; [done|]. intros Hm. apply Hin.
      apply elem_of_satellites. eauto. }
  destruct (decide (k = tableId)) as [->|Hne].
  - rewrite lookup_alter_eq, Hfold. rewrite bool_decide_eq_true_2 by done.
    by destruct (m !! tableId).
  - rewrite lookup_alter_ne, Hfold by done.
    rewrite bool_decide_eq_false_2 by done. done.
Qed.

Lemma unmerged_no_satellites (tableId : string) (m : gmap string Table)
    (k : string) (tb : Table) :
  unmerged tableId m !! k = Some tb → t_mergedWithId tb ≠ Some tableId.
Proof.
  rewrite lookup_unmerged. destruct (m !! k) as [tb0|]; simpl; [|done].
  intros [= <-]. repeat case_bool_decide; simpl; congruence.
Qed.

Lemma POST_tables_unmerge_result (session : Session) (tableId : string) (db : DB) :
  can_seat session = true →
  nonempty tableId = true →
  POST_tables_unmerge session (Some tableId) db
  = match tables db !! tableId with
    | Some _ => (json 200, with_tables db (unmerged tableId (tables db)))
    | None => (error 500 "Failed to unmerge tables", db)
    end.
Proof.
  intros (u & -> & Hrole)%can_seat_inv Hne. unfold POST_tables_unmerge.
  rewrite Hrole, Hne. simpl. unfold table_findMany.
  unfold tryCatch, mbind at 1, prisma_bind at 1, get.
  unfold mbind at 1, prisma_bind at 1, transaction.
  rewrite run_all_app.
  match goal with |- context [?f <$> map_to_list ?X] =>
    replace (f <$> map_to_list X)
      with ((λ id, table_update id (table_set_merge None VACANT))
              <$> satellites tableId (tables db))
      by (unfold satellites; by rewrite <- list_fmap_compose)
  end.
  rewrite run_all_update_each.
  - simpl. unfold mbind, prisma_bind, table_update. simpl.
    rewrite lookup_foldl_alter by done.
    destruct (tables db !! tableId) as [tp|] eqn:Hp.
    + assert (Hsome : ∃ tp', (if decide (tableId ∈ satellites tableId (tables db))
                              then table_set_merge None VACANT <$> Some tp
                              else Some tp) = Some tp').
      { destruct (decide (tableId ∈ satellites tableId (tables db))); simpl; eauto. }
      destruct Hsome as [tp' Htp']. rewrite Htp'. simpl.
      unfold unmerged. f_equal. f_equal. apply alter_as_insert.
      by rewrite lookup_foldl_alter, Hp.
    + by destruct (decide (tableId ∈ satellites tableId (tables db))).
  - apply Forall_forall. intros k Hk.
    apply elem_of_satellites in Hk as (tb & Hk & _). by eexists.
Qed.

(** X6: unmerging [tableId] clears the merge link of every table merged
    into it and sets those tables and [tableId] itself to VACANT, leaving
    every other table as it was, so that afterwards nothing is merged into
    [tableId]; when [tableId] names no table the transaction is rolled
    back: the answer is 500 and no table changes. *)
Theorem Unmerge_releases (session : Session) (tableId : string) (db : DB) :
  can_seat session = true →
  nonempty tableId = true →
  match tables db !! tableId with
  | None =>
    POST_tables_unmerge session (Some tableId) db
    = (error 500 "Failed to unmerge tables", db)
  | Some _ =>
    (POST_tables_unmerge session (Some tableId) db).1 = json 200
    ∧ t_status <$> tables (POST_tables_unmerge session (Some tableId) db).2
                   !! tableId = Some VACANT
    ∧ (∀ k tb, tables db !! k = Some tb → t_mergedWithId tb = Some tableId →
         tables (POST_tables_unmerge session (Some tableId) db).2 !! k
         = Some (mkTable (t_number tb) (t_capacity tb) VACANT None))
    ∧ (∀ k tb, tables db !! k = Some tb → k ≠ tableId →
         t_mergedWithId tb ≠ Some tableId →
         tables (POST_tables_unmerge session (Some tableId) db).2 !! k = Some tb)
    ∧ (∀ k tb, tables (POST_tables_unmerge session (Some tableId) db).2 !! k
               = Some tb → t_mergedWithId tb ≠ Some tableId)
  end.
Proof.
  intros Hs Hne. rewrite (POST_tables_unmerge_result _ _ _ Hs Hne).
  destruct (tables db !! tableId) as [tp|] eqn:Hp; [|done]. simpl.
  split; [done|]. split; [|split; [|split]].
  - rewrite lookup_unmerged, Hp. simpl.
    rewrite (bool_decide_eq_true_2 (tableId = tableId)) by done.
    by case_bool_decide.
  - intros k tb Hk Hm. rewrite lookup_unmerged, Hk. simpl.
    rewrite (bool_decide_eq_true_2 _ Hm). by case_bool_decide.
  - intros k tb Hk Hkt Hm. rewrite lookup_unmerged, Hk. simpl.
    by rewrite !bool_decide_eq_false_2.
  - intros k tb. apply unmerged_no_satellites.
Qed.

Lemma Unmerge_releases_witness :
  (POST_tables_unmerge waiter (Some "A") sample_merged).1 = json 200
  ∧ t_status <$> tables (POST_tables_unmerge waiter (Some "A") sample_merged).2
                 !! "A" = Some VACANT
  ∧ (∀ k tb, tables sample_merged !! k = Some tb →
       t_mergedWithId tb = Some "A" →
       tables (POST_tables_unmerge waiter (Some "A") sample_merged).2 !! k
       = Some (mkTable (t_number tb) (t_capacity tb) VACANT None))
  ∧ (∀ k tb, tables sample_merged !! k = Some tb → k ≠ "A" →
       t_mergedWithId tb ≠ Some "A" →
       tables (POST_tables_unmerge waiter (Some "A") sample_merged).2 !! k
       = Some tb)
  ∧ (∀ k tb, tables (POST_tables_unmerge waiter (Some "A") sample_merged).2 !! k
             = Some tb → t_mergedWithId tb ≠ Some "A").
Proof.
  apply (Unmerge_releases waiter "A" sample_merged); reflexivity.
Defined.

(** X7: merging existing tables under a primary that is not itself merged
    and then unmerging the primary leaves every table of the list VACANT
    with no merge link (number and capacity as before), and leaves every
    table outside the list that was not merged into the primary
    untouched. *)
Theorem Merge_then_Unmerge (session : Session) (primary : string)
    (others : list string) (db : DB) :
  can_seat session = true →
  nonempty primary = true →
  others ≠ [] →
  Forall (λ id, is_Some (tables db !! id)) (primary :: others) →
  (tables db !! primary ≫= t_mergedWithId) = None →
  (POST_tables_unmerge session (Some primary)
     (POST_tables_merge session (primary :: others) db).2).1 = json 200
  ∧ (∀ k tb, k ∈ primary :: others → tables db !! k = Some tb →
       tables (POST_tables_unmerge session (Some primary)
                 (POST_tables_merge session (primary :: others) db).2).2 !! k
       = Some (mkTable (t_number tb) (t_capacity tb) VACANT None))
  ∧ (∀ k tb, k ∉ primary :: others → tables db !! k = Some tb →
       t_mergedWithId tb ≠ Some primary →
       tables (POST_tables_unmerge session (Some primary)
                 (POST_tables_merge session (primary :: others) db).2).2 !! k
       = Some tb).
Proof.
  intros Hs Hne Hothers Hall Hfree.
  rewrite (POST_tables_merge_result _ _ _ _ Hs Hothers).
  rewrite decide_True by done. simpl.
  rewrite (POST_tables_unmerge_result _ _ _ Hs Hne). simpl.
  apply Forall_cons in Hall as [[tp Hp] Hall].
  rewrite lookup_merged, Hp. simpl. split; [done|]. split.
  - intros k tb Hk Hkb. rewrite lookup_unmerged, lookup_merged, Hkb. simpl.
    destruct (decide (k ∈ others)) as [Hin|Hout]; simpl.
    + rewrite (bool_decide_eq_true_2 (Some primary = Some primary)) by done.
      by case_bool_decide.
    + apply elem_of_cons in Hk as [->|Hk]; [|done].
      rewrite decide_True by done. simpl.
      rewrite Hp in Hkb. injection Hkb as <-.
      rewrite Hp in Hfree. simpl in Hfree. rewrite Hfree. simpl.
      rewrite bool_decide_eq_true_2 by done.
      unfold table_set_status. simpl. by rewrite Hfree.
  - intros k tb Hk Hkb Hm. rewrite lookup_unmerged, lookup_merged, Hkb. simpl.
    rewrite decide_False by (intros ?; apply Hk; by right).
    rewrite decide_False by (intros ->; apply Hk; by left).
    rewrite (bool_decide_eq_false_2 (t_mergedWithId tb = Some primary)) by done.
    rewrite (bool_decide_eq_false_2 (k = primary)); [done|].
    intros ->. apply Hk. by left.
Qed.

Lemma Merge_then_Unmerge_witness :
  (POST_tables_unmerge waiter (Some "A")
     (POST_tables_merge waiter ["A"; "B"; "C"] sample_empty).2).1 = json 200
  ∧ (∀ k tb, k ∈ ["A"; "B"; "C"] → tables sample_empty !! k = Some tb →
       tables (POST_tables_unmerge waiter (Some "A")
                 (POST_tables_merge waiter ["A"; "B"; "C"] sample_empty).2).2 !! k
       = Some (mkTable (t_number tb) (t_capacity tb) VACANT None))
  ∧ (∀ k tb, k ∉ ["A"; "B"; "C"] → tables sample_empty !! k = Some tb →
       t_mergedWithId tb ≠ Some "A" →
       tables (POST_tables_unmerge waiter (Some "A")
                 (POST_tables_merge waiter ["A"; "B"; "C"] sample_empty).2).2 !! k
       = Some tb).
Proof.
  apply (Merge_then_Unmerge waiter "A" ["B"; "C"] sample_empty).
  - reflexivity.
  - reflexivity.
  - discriminate.
  - repeat constructor; eexists; vm_compute; reflexivity.
  - reflexivity.
Defined.

(** ** Discounts *)

(** What a successful apply-discount stores. *)
Lemma POST_discount_result (session : Session) (body : DiscountBody) (db : DB)
    (id : string) :
  b_discountOrderId body = Some id →
  succeeded (POST_discount session body db).1 = true →
  ∃ u ty v o,
    session = Some u
    ∧ b_discountType body = Some ty
    ∧ nonempty ty = true
    ∧ b_discountValue body = Some v
    ∧ orders db !! id = Some o
    ∧ orders (POST_discount session body db).2 !! id
      = Some (order_set_discount (Some ty) (Some v)
                (match b_discountReason body with
                 | Some r => if nonempty r then Some r else None
                 | None => None
                 end)
                (Some (u_id u))
                (Nmax (Num 0)
                   (Nsub (Num (subtotal (items_of db id)))
                         (discountAmount ty v (subtotal (items_of db id)))))
                o)
    ∧ orderItems (POST_discount session body db).2 = orderItems db.
Proof.
  intros Hid. unfold POST_discount. rewrite Hid.
  destruct session as [u|]; [|done].
  destruct (negb _); [done|]. destruct (_ && _); [done|].
  destruct (b_discountType body) as [ty|]; [|done].
  destruct (b_discountValue body) as [v|]; [|done].
  destruct (negb (nonempty id) || negb (nonempty ty)) eqn:Hne; [done|].
  apply orb_false_iff in Hne as [_ Hne%negb_false_iff].
  unfold order_executeRaw. run_prisma.
  destruct (orders db !! id) as [o|] eqn:Ho; [|done]. simpl. intros _.
  exists u, ty, v, o. rewrite lookup_alter_eq, Ho. done.
Qed.

Lemma POST_discount_succeeded_transfer (session : Session) (body : DiscountBody)
    (db db' : DB) (id : string) :
  b_discountOrderId body = Some id →
  succeeded (POST_discount session body db).1 = true →
  is_Some (orders db' !! id) →
  succeeded (POST_discount session body db').1 = true.
Proof.
  intros Hid. unfold POST_discount. rewrite Hid.
  destruct session as [u|]; [|done].
  destruct (negb _); [done|]. destruct (_ && _); [done|].
  destruct (b_discountType body) as [ty|]; [|done].
  destruct (b_discountValue body) as [v|]; [|done].
  destruct (_ || _); [done|].
  unfold order_executeRaw. run_prisma.
  destruct (orders db !! id) as [o|]; [|done]. simpl. intros _ [o' ->]. done.
Qed.

(** X8: a discount replaces the one before; discounts never stack.  After
    two successful apply-discount requests on an order, the stored total
    and the discount columns of the order are those of the second request
    alone: type and value as sent, and the total computed from the
    subtotal of the order's items, not from the total the first request
    left.  In particular sending the same request again changes none of
    these columns. *)
Theorem discounts_replace (s1 s2 : Session) (b1 b2 : DiscountBody) (db : DB)
    (id : string) (o2 : Order) :
  b_discountOrderId b1 = Some id →
  b_discountOrderId b2 = Some id →
  succeeded (POST_discount s1 b1 db).1 = true →
  succeeded (POST_discount s2 b2 (POST_discount s1 b1 db).2).1 = true →
  orders (POST_discount s2 b2 (POST_discount s1 b1 db).2).2 !! id = Some o2 →
  (∃ ty v,
     b_discountType b2 = Some ty
     ∧ b_discountValue b2 = Some v
     ∧ o_discountType o2 = Some ty
     ∧ o_discountValue o2 = Some v
     ∧ o_totalAmount o2
       = Nmax (Num 0)
           (Nsub (Num (subtotal (items_of db id)))
                 (discountAmount ty v (subtotal (items_of db id)))))
  ∧ ∃ o2',
      orders (POST_discount s2 b2 db).2 !! id = Some o2'
      ∧ o_totalAmount o2' = o_totalAmount o2
      ∧ o_discountType o2' = o_discountType o2
      ∧ o_discountValue o2' = o_discountValue o2
      ∧ o_discountReason o2' = o_discountReason o2
      ∧ o_discountAppliedBy o2' = o_discountAppliedBy o2.
Proof.
  intros Hid1 Hid2 Hok1 Hok2 Ho2.
  destruct (POST_discount_result _ _ _ _ Hid1 Hok1)
    as (u1 & ty1 & v1 & o & -> & _ & _ & _ & Ho & Ho1 & Hitems1).
  destruct (POST_discount_result _ _ _ _ Hid2 Hok2)
    as (u2 & ty & v & o1 & -> & Hty & _ & Hv & Ho1' & Hfinal & _).
  assert (Hsame : items_of (POST_discount (Some u1) b1 db).2 id = items_of db id).
  { unfold items_of. by rewrite Hitems1. }
  rewrite Hsame, Ho2 in Hfinal. injection Hfinal as ->.
  assert (Hok3 : succeeded (POST_discount (Some u2) b2 db).1 = true).
  { eapply POST_discount_succeeded_transfer; [exact Hid2|exact Hok2|].
    by eexists. }
  destruct (POST_discount_result _ _ _ _ Hid2 Hok3)
    as (u3 & ty' & v' & o' & [= <-] & Hty' & _ & Hv' & _ & Halone & _).
  rewrite Hty in Hty'. rewrite Hv in Hv'. simplify_eq.
  split.
  - exists ty', v'. simpl. done.
  - eexists. split; [exact Halone|]. simpl. done.
Qed.

Lemma discounts_replace_witness :
  o_totalAmount
    (default sample_order
       (orders (POST_discount owner sample_discount
                  (POST_discount owner sample_discount sample_db).2).2 !! "o1"))
  ≈ Num (2250 # 100).
Proof.
  assert (Ho2 : orders (POST_discount owner sample_discount
                          (POST_discount owner sample_discount sample_db).2).2
                  !! "o1"
                = Some (default sample_order
                          (orders (POST_discount owner sample_discount
                                     (POST_discount owner sample_discount
                                        sample_db).2).2 !! "o1")))
    by (vm_compute; reflexivity).
  destruct (discounts_replace owner owner sample_discount sample_discount
              sample_db "o1" _ eq_refl eq_refl eq_refl eq_refl Ho2)
    as [(ty & v & Hty & Hv & _ & _ & Htotal) _].
  rewrite Htotal. injection Hty as <-. injection Hv as <-.
  vm_compute. reflexivity.
Defined.

(** A body whose [discountValue] is [null] or ["abc"] passes the
    [=== undefined] test; [parseFloat] reads it as NaN, which reaches the
    UPDATE: the answer is 200 and NaN is stored as value and as total. *)
Lemma POST_discount_NaN_accepted :
  (POST_discount owner (mkDiscountBody (Some "o1") (Some "FIXED") (Some NaN) None)
     sample_db).1 = json 200
  ∧ orders (POST_discount owner
              (mkDiscountBody (Some "o1") (Some "FIXED") (Some NaN) None)
              sample_db).2 !! "o1"
    = Some (mkOrder (Some "A") CREATED None NaN "u1" (Some "FIXED") (Some NaN)
              None (Some "u1")).
Proof. split; vm_compute; reflexivity. Qed.




(** ** Adding items and creating orders *)





Lemma or0_Some (p : Q) : or0 (Some p) == p.
Proof.
  simpl. destruct (Qeq_bool p 0) eqn:Hp; [|reflexivity].
  apply Qeq_bool_iff in Hp. by rewrite Hp.
Qed.

Lemma menuItemPrices_lookup (db : DB) (data : CreateOrderData) (id : string)
    (mi : MenuItem) :
  id ∈ d_menuItemId <$> d_items data →
  menuItems db !! id = Some mi →
  menuItemPrices db data !! id = Some (mi_price mi).
Proof.
  intros Hin Hmi. unfold menuItemPrices. rewrite lookup_fmap.
  rewrite (proj2 (map_lookup_filter_Some _ _ _ mi)); [done|]. done.
Qed.

(** X11: a successful CreateOrder (201) stores the order as CREATED on the
    given table with no discount, appends one PENDING item per body item
    (same menu item and quantity, in order) whose price is the catalogue
    price of that moment, sets the table OCCUPIED and leaves all other
    tables, all other orders and the payments as they were. *)
Theorem CreateOrder_effect (fk : bool) (cuid : nat → string) (session : Session)
    (body : CreateOrderBody) (db : DB) (data : CreateOrderData) :
  can_seat session = true →
  createOrderSchema body = Some data →
  status (POST_orders fk cuid session body db).1 = 201%nat →
  (∃ u, session = Some u
        ∧ orders (POST_orders fk cuid session body db).2
          = <[cuid 0%nat := new_order u data db]> (orders db))
  ∧ orders db !! cuid 0%nat = None
  ∧ orderItems (POST_orders fk cuid session body db).2
    = (orderItems db ++ new_items cuid data db)%list
  ∧ Forall2 (λ item it,
               oi_menuItemId it = d_menuItemId item
               ∧ oi_quantity it = d_quantity item
               ∧ oi_orderId it = cuid 0%nat
               ∧ oi_status it = ItemPENDING
               ∧ ∀ mi, menuItems db !! d_menuItemId item = Some mi →
                       oi_price it == mi_price mi)
            (d_items data) (new_items cuid data db)
  ∧ t_status <$> tables (POST_orders fk cuid session body db).2 !! d_tableId data
    = Some OCCUPIED
  ∧ (∀ k, k ≠ d_tableId data →
       tables (POST_orders fk cuid session body db).2 !! k = tables db !! k)
  ∧ payments (POST_orders fk cuid session body db).2 = payments db.
Proof.
  intros Hs Hdata.
  destruct (POST_orders_valid fk cuid _ _ db _ Hs Hdata) as (u & Hu & ->).
  destruct (order_create _ _ _ _ db) as [[[]|] db1] eqn:Hc; [|done].
  apply order_create_Some in Hc as (-> & Hfresh & _).
  destruct (tables db !! d_tableId data) as [tb|]; [|done]. simpl. intros _.
  split; [eauto|]. split; [done|]. split; [done|]. split; [|split; [|split]].
  - unfold new_items. apply Forall2_same_length_lookup_2.
    { by rewrite length_imap. }
    intros i item it Hitem. rewrite list_lookup_imap, Hitem. simpl.
    intros [= <-]. simpl. repeat split; try done.
    intros mi Hmi.
    rewrite (menuItemPrices_lookup db data _ mi); [apply or0_Some| |done].
    apply list_elem_of_fmap. exists item. split; [done|].
    by eapply list_elem_of_lookup_2.
  - by rewrite lookup_insert_eq.
  - intros k Hk. by rewrite lookup_insert_ne.
  - done.
Qed.

Lemma CreateOrder_effect_witness :
  (∃ u, owner = Some u
        ∧ orders (POST_orders true sample_cuid owner sample_body sample_empty).2
          = <[sample_cuid 0%nat :=
                new_order u (mkCreateOrderData "A" None
                               [ mkOrderItemData "burger" 2 None None;
                                 mkOrderItemData "fries" 1 None None ])
                  sample_empty]> (orders sample_empty))
  ∧ orders sample_empty !! sample_cuid 0%nat = None
  ∧ orderItems (POST_orders true sample_cuid owner sample_body sample_empty).2
    = (orderItems sample_empty
       ++ new_items sample_cuid
            (mkCreateOrderData "A" None
               [ mkOrderItemData "burger" 2 None None;
                 mkOrderItemData "fries" 1 None None ]) sample_empty)%list
  ∧ Forall2 (λ item it,
               oi_menuItemId it = d_menuItemId item
               ∧ oi_quantity it = d_quantity item
               ∧ oi_orderId it = sample_cuid 0%nat
               ∧ oi_status it = ItemPENDING
               ∧ ∀ mi, menuItems sample_empty !! d_menuItemId item = Some mi →
                       oi_price it == mi_price mi)
            [ mkOrderItemData "burger" 2 None None;
              mkOrderItemData "fries" 1 None None ]
            (new_items sample_cuid
               (mkCreateOrderData "A" None
                  [ mkOrderItemData "burger" 2 None None;
                    mkOrderItemData "fries" 1 None None ]) sample_empty)
  ∧ t_status
      <$> tables (POST_orders true sample_cuid owner sample_body sample_empty).2
          !! "A" = Some OCCUPIED
  ∧ (∀ k, k ≠ "A" →
       tables (POST_orders true sample_cuid owner sample_body sample_empty).2 !! k
       = tables sample_empty !! k)
  ∧ payments (POST_orders true sample_cuid owner sample_body sample_empty).2
    = payments sample_empty.
Proof.
  apply (CreateOrder_effect true sample_cuid owner sample_body sample_empty
           (mkCreateOrderData "A" None
              [ mkOrderItemData "burger" 2 None None;
                mkOrderItemData "fries" 1 None None ]));
    reflexivity.
Defined.

(** ** What no request ever does *)

Ltac frame_with R side extra :=
  apply (keeps_tryCatch R); repeat first [ extra | frame_step R side ].

Lemma serve_keeps (R : DB → DB → Prop) `{!Reflexive R, !Transitive R}
    (fk : bool) :
  (∀ session req db, R db (handle fk session req db).2) →
  ∀ reqs db, R db (serve fk reqs db).
Proof.
  intros Hstep reqs. induction reqs as [|[s r] reqs IH]; intros db; simpl.
  - reflexivity.
  - etrans; [apply (Hstep s r db) | apply IH].
Qed.

(** X12: the catalogue is read-only for all of these handlers: over any
    sequence of requests the menu items stay exactly as they were. *)
Theorem catalogue_read_only (fk : bool) (reqs : list (Session * Request))
    (db : DB) :
  menuItems (serve fk reqs db) = menuItems db.
Proof.
  apply (serve_keeps (same menuItems)). clear. intros session req db.
  destruct req; simpl; handlers;
    frame (same menuItems) ltac:(intros; reflexivity).
Qed.

(** A table's number and capacity. *)
Definition table_identity (t : Table) : Z * Z := (t_number t, t_capacity t).

Definition same_table_set (db db' : DB) : Prop :=
  ∀ k, table_identity <$> tables db' !! k = table_identity <$> tables db !! k.

#[global] Instance same_table_set_refl : Reflexive same_table_set.
Proof. by intros db k. Qed.
#[global] Instance same_table_set_trans : Transitive same_table_set.
Proof. intros a b c Hab Hbc k. by rewrite Hbc, Hab. Qed.

Lemma same_table_set_update (id : string) (h : Table → Table) :
  (∀ t, table_identity (h t) = table_identity t) →
  keeps same_table_set (table_update id h).
Proof.
  intros Hh db. unfold table_update.
  destruct (tables db !! id) as [t|] eqn:Ht; simpl; [|reflexivity].
  intros k. simpl. destruct (decide (k = id)) as [->|Hne].
  - rewrite lookup_insert_eq, Ht. simpl. by rewrite Hh.
  - by rewrite lookup_insert_ne.
Qed.

Lemma same_table_set_updateMany (w : Table → bool) (h : Table → Table) :
  (∀ t, table_identity (h t) = table_identity t) →
  keeps same_table_set (table_updateMany w h).
Proof.
  intros Hh db k. unfold table_updateMany, put. simpl.
  rewrite lookup_fmap. destruct (tables db !! k) as [t|]; simpl; [|done].
  destruct (w t); by rewrite ?Hh.
Qed.

Lemma same_table_set_update_data (fk : bool) (id : string) data :
  keeps same_table_set (table_update_data fk id data).
Proof.
  intros db. unfold table_update_data.
  destruct (fk && _); [reflexivity|]. by apply same_table_set_update.
Qed.

Ltac same_table_set_extra :=
  first [ apply same_table_set_update; reflexivity
        | apply same_table_set_updateMany; reflexivity
        | apply same_table_set_update_data ].

Lemma handle_same_table_set (fk : bool) (session : Session) (req : Request)
    (db : DB) :
  same_table_set db (handle fk session req db).2.
Proof.
  destruct req; simpl; handlers;
    frame_with same_table_set ltac:(intros; intros ?; reflexivity)
               same_table_set_extra.
Qed.

(** X13: the tables are a fixed set: over any sequence of requests no
    table appears or disappears, and no table changes its number or its
    capacity. *)
Theorem tables_fixed (fk : bool) (reqs : list (Session * Request)) (db : DB)
    (k : string) :
  table_identity <$> tables (serve fk reqs db) !! k
  = table_identity <$> tables db !! k.
Proof.
  revert k. change (same_table_set db (serve fk reqs db)).
  apply (serve_keeps same_table_set). apply handle_same_table_set.
Qed.

(** What an order keeps for life. *)
Definition order_identity (o : Order) : option string * string * option string :=
  (o_tableId o, o_createdById o, o_notes o).

Definition orders_kept (db db' : DB) : Prop :=
  ∀ k o, orders db !! k = Some o →
    ∃ o', orders db' !! k = Some o' ∧ order_identity o' = order_identity o.

#[global] Instance orders_kept_refl : Reflexive orders_kept.
Proof. intros db k o Hk. eauto. Qed.
#[global] Instance orders_kept_trans : Transitive orders_kept.
Proof.
  intros a b c Hab Hbc k o Hk.
  destruct (Hab k o Hk) as (o1 & Hk1 & Hid1).
  destruct (Hbc k o1 Hk1) as (o2 & Hk2 & Hid2).
  exists o2. split; [done|]. congruence.
Qed.

Lemma orders_kept_same (db db' : DB) :
  orders db' = orders db → orders_kept db db'.
Proof. intros Heq k o Hk. rewrite Heq. eauto. Qed.

Lemma orders_kept_update (id : string) (h : Order → Order) :
  (∀ o, order_identity (h o) = order_identity o) →
  keeps orders_kept (order_update id h).
Proof.
  intros Hh db. unfold order_update.
  destruct (orders db !! id) as [o|] eqn:Ho; simpl; [|reflexivity].
  intros k o0 Hk. simpl. destruct (decide (k = id)) as [->|Hne].
  - rewrite lookup_insert_eq. rewrite Ho in Hk. injection Hk as <-. eauto.
  - rewrite lookup_insert_ne by done. eauto.
Qed.

Lemma orders_kept_executeRaw (id : string) (h : Order → Order) :
  (∀ o, order_identity (h o) = order_identity o) →
  keeps orders_kept (order_executeRaw id h).
Proof.
  intros Hh db k o Hk. unfold order_executeRaw, put. simpl.
  destruct (decide (k = id)) as [->|Hne].
  - rewrite lookup_alter_eq, Hk. simpl. eauto.
  - rewrite lookup_alter_ne by done. eauto.
Qed.

Lemma orders_kept_recompute_total (id : string) :
  keeps orders_kept (recompute_total id).
Proof.
  unfold recompute_total. apply (keeps_bind orders_kept); [apply keeps_get; tc_solve|].
  intros [o|]; [|apply keeps_ret; tc_solve].
  apply (keeps_bind orders_kept); [apply keeps_get; tc_solve|].
  intros its. by apply orders_kept_update.
Qed.

Lemma orders_kept_create (fk : bool) (id : string) (o : Order)
    (its : list OrderItem) :
  keeps orders_kept (order_create fk id o its).
Proof.
  intros db. destruct (order_create fk id o its db) as [[[]|] db1] eqn:Hc; simpl.
  - apply order_create_Some in Hc as (-> & Hfresh & _).
    intros k o0 Hk. simpl. rewrite lookup_insert_ne by congruence. eauto.
  - apply order_create_None in Hc as ->. reflexivity.
Qed.

Ltac orders_kept_extra :=
  first [ apply orders_kept_update; reflexivity
        | apply orders_kept_executeRaw; reflexivity
        | apply orders_kept_recompute_total
        | apply orders_kept_create ].

(** X14: orders are never deleted, and an order keeps its table, its
    creator and its notes for life: over any sequence of requests every
    order of the store is still there with these three columns
    unchanged. *)
Theorem orders_never_deleted (fk : bool) (reqs : list (Session * Request))
    (db : DB) (k : string) (o : Order) :
  orders db !! k = Some o →
  ∃ o', orders (serve fk reqs db) !! k = Some o'
        ∧ o_tableId o' = o_tableId o
        ∧ o_createdById o' = o_createdById o
        ∧ o_notes o' = o_notes o.
Proof.
  intros Hk.
  assert (Hkept : orders_kept db (serve fk reqs db)).
  { apply (serve_keeps orders_kept). clear. intros session req db.
    destruct req; simpl; handlers;
      frame_with orders_kept ltac:(intros; apply orders_kept_same; reflexivity)
                 orders_kept_extra. }
  destruct (Hkept k o Hk) as (o' & Hk' & Hid). exists o'. split; [done|].
  unfold order_identity in Hid. by injection Hid as -> -> ->.
Qed.

Lemma orders_never_deleted_witness :
  ∃ o', orders (serve true [ (owner, ApplyDiscount sample_discount);
                             (waiter, Settle (mkPaymentBody "o1" 25 "CASH")) ]
                  sample_db) !! "o1" = Some o'
        ∧ o_tableId o' = o_tableId sample_order
        ∧ o_createdById o' = o_createdById sample_order
        ∧ o_notes o' = o_notes sample_order.
Proof.
  apply (orders_never_deleted true
           [ (owner, ApplyDiscount sample_discount);
             (waiter, Settle (mkPaymentBody "o1" 25 "CASH")) ] sample_db "o1"
           sample_order).
  reflexivity.
Defined.

Definition payments_extended (db db' : DB) : Prop :=
  payments db `prefix_of` payments db'.

#[global] Instance payments_extended_refl : Reflexive payments_extended.
Proof. intros db. unfold payments_extended. reflexivity. Qed.
#[global] Instance payments_extended_trans : Transitive payments_extended.
Proof. intros a b c Hab Hbc. unfold payments_extended in *. by etrans. Qed.

Lemma payments_extended_create (p : Payment) :
  keeps payments_extended (payment_create p).
Proof. intros db. unfold payment_create. simpl. by apply prefix_app_r. Qed.

(** X15: payments are an append-only ledger: over any sequence of requests
    the payments recorded before are still there, unchanged and in the same
    order, at the head of the list. *)
Theorem payments_append_only (fk : bool) (reqs : list (Session * Request))
    (db : DB) :
  payments db `prefix_of` payments (serve fk reqs db).
Proof.
  change (payments_extended db (serve fk reqs db)).
  apply (serve_keeps payments_extended). clear. intros session req db.
  destruct req; simpl; handlers;
    frame_with payments_extended
               ltac:(intros; unfold payments_extended; reflexivity)
               ltac:(apply payments_extended_create).
Qed.

(** ** Table status updates *)

(** X16: the table-update handler.  Without an id the answer is 400
    "Table ID is required", with a status outside the enumeration the 400
    issue list, and for an id that names no table 500: none of them writes.
    For an existing table a status-only body rewrites the status of that
    one table and nothing else in the store, and a body with
    [mergedWithId: null] clears the merge link of that table. *)
Theorem PUT_tables_effect (fk : bool) (session : Session) (body : TableBody)
    (db : DB) :
  can_seat session = true →
  match b_id body with
  | None => PUT_tables fk session body db = (error 400 "Table ID is required", db)
  | Some id =>
    if negb (nonempty id)
    then PUT_tables fk session body db = (error 400 "Table ID is required", db)
    else
      match updateTableSchema body with
      | None => PUT_tables fk session body db = (issues, db)
      | Some (st, link) =>
        match tables db !! id with
        | None =>
          PUT_tables fk session body db = (error 500 "Failed to update table", db)
        | Some tb =>
          (link = None →
           PUT_tables fk session body db
           = (json 200,
              with_tables db
                (<[id := table_set_status (default (t_status tb) st) tb]>
                   (tables db))))
          ∧ (link = Some None →
             PUT_tables fk session body db
             = (json 200,
                with_tables db
                  (<[id := table_set_merge None (default (t_status tb) st) tb]>
                     (tables db))))
        end
      end
  end.
Proof.
  intros (u & -> & Hrole)%can_seat_inv. unfold PUT_tables. rewrite Hrole.
  destruct (b_id body) as [id|]; [|reflexivity].
  destruct (negb (nonempty id)); [reflexivity|].
  destruct (updateTableSchema body) as [[st link]|]; [|reflexivity].
  unfold table_update_data, table_update. run_prisma.
  destruct (tables db !! id) as [tb|] eqn:Htb.
  - split; intros ->; simpl; rewrite andb_false_r; reflexivity.
  - destruct (fk && _); reflexivity.
Qed.

Lemma PUT_tables_effect_witness :
  (@None (option string) = None →
   PUT_tables true waiter (mkTableBody (Some "B") (Some "RESERVED") None)
     sample_empty
   = (json 200,
      with_tables sample_empty
        (<["B" := table_set_status RESERVED (mkTable 2 4 VACANT None)]>
           (tables sample_empty))))
  ∧ (@None (option string) = Some None →
     PUT_tables true waiter (mkTableBody (Some "B") (Some "RESERVED") None)
       sample_empty
     = (json 200,
        with_tables sample_empty
          (<["B" := table_set_merge None RESERVED (mkTable 2 4 VACANT None)]>
             (tables sample_empty)))).
Proof.
  apply (PUT_tables_effect true waiter
           (mkTableBody (Some "B") (Some "RESERVED") None) sample_empty).
  reflexivity.
Defined.

(** ** Requests that name nothing *)

(** X17: a settlement request is checked before anything is written: an
    empty order id, an amount that is not positive or a method other than
    CASH and CARD is answered with the 400 issue list, and an order id
    that names no order with 404 "Order not found"; in each case the store
    is left as it was. *)
Theorem Settle_validation (session : Session) (body : PaymentBody) (db : DB) :
  can_settle session = true →
  (nonempty (b_orderId body) = false ∨ ¬ 0 < b_amount body
   ∨ parsePaymentMethod (b_method body) = None →
   POST_payments session body db = (issues, db))
  ∧ (∀ method,
       nonempty (b_orderId body) = true → 0 < b_amount body →
       parsePaymentMethod (b_method body) = Some method →
       orders db !! b_orderId body = None →
       POST_payments session body db = (error 404 "Order not found", db)).
Proof.
  intros (u & -> & Hrole)%can_settle_inv. unfold POST_payments. rewrite Hrole.
  split.
  - intros Hbad.
    assert (createPaymentSchema body = None) as ->; [|reflexivity].
    unfold createPaymentSchema.
    destruct (nonempty (b_orderId body)); simpl; [|done].
    destruct (positive (b_amount body)) eqn:Hpos; simpl; [|done].
    apply positive_spec in Hpos.
    destruct Hbad as [Hbad|[Hbad|Hbad]]; [done|done|by rewrite Hbad].
  - intros method Hid Hpos%positive_spec Hm Ho.
    unfold createPaymentSchema. rewrite Hid, Hpos, Hm. run_prisma.
    by rewrite Ho.
Qed.

Lemma Settle_validation_witness :
  POST_payments waiter (mkPaymentBody "o1" 0 "CASH") sample_db
  = (issues, sample_db)
  ∧ POST_payments waiter (mkPaymentBody "o9" 25 "CARD") sample_db
    = (error 404 "Order not found", sample_db).
Proof.
  split.
  - apply (Settle_validation waiter (mkPaymentBody "o1" 0 "CASH") sample_db
             eq_refl).
    right; left. intros H. vm_compute in H. discriminate H.
  - apply (proj2 (Settle_validation waiter (mkPaymentBody "o9" 25 "CARD")
                    sample_db eq_refl) CARD); reflexivity.
Defined.

(** X18: a status request for a record that does not exist - an order id
    or an item id that names nothing - is answered with the handler's 500
    (the update rejects) and writes nothing. *)
Theorem status_of_unknown_record (session : Session) (id status : string)
    (db : DB) :
  is_Some session →
  (∀ st, parseOrderStatus status = Some st → orders db !! id = None →
     PUT_order session id status db = (error 500 "Failed to update order", db))
  ∧ (∀ st, parseOrderItemStatus status = Some st → find_item db id = None →
       PUT_order_item session id status db
       = (error 500 "Failed to update order item status", db)).
Proof.
  intros [u ->]. split.
  - intros st Hst Ho. unfold PUT_order, updateOrderStatusSchema, order_update.
    rewrite Hst. run_prisma. by rewrite Ho.
  - intros st Hst Hit. unfold PUT_order_item, updateOrderItemStatusSchema.
    rewrite Hst. unfold orderItem_update. unfold find_item in Hit. run_prisma.
    by rewrite Hit.
Qed.

Lemma status_of_unknown_record_witness :
  PUT_order owner "o9" "READY" sample_db
  = (error 500 "Failed to update order", sample_db)
  ∧ PUT_order_item owner "i9" "READY" sample_db
    = (error 500 "Failed to update order item status", sample_db).
Proof.
  destruct (status_of_unknown_record owner "o9" "READY" sample_db) as [Ho _];
    [eexists; reflexivity|].
  destruct (status_of_unknown_record owner "i9" "READY" sample_db) as [_ Hi];
    [eexists; reflexivity|].
  split; [apply (Ho READY) | apply (Hi ItemREADY)]; reflexivity.
Defined.

(** * The floor view and the tables page *)

(** ** [GET /api/tables]

    The handler lists every table with the table it is merged into, the
    tables merged into it and its orders that are still open, each order
    with its items.  The rows are kept keyed by table id here: the
    [orderBy] of the source only fixes the order of the JSON array. *)

Definition active (s : OrderStatus) : bool :=
  bool_decide (s ∈ [CREATED; PREPARING; READY; SERVED]).

Record TableRow := mkTableRow {
  row_table : Table;
  row_mergedWith : option Table;
  row_mergedTables : gmap string Table;
  row_orders : gmap string (Order * list OrderItem);
}.

Definition GET_tables (db : DB) : gmap string TableRow :=
  map_imap
    (λ id tb,
       Some (mkTableRow tb
               (t_mergedWithId tb ≫= λ p, tables db !! p)
               (filter (λ kt : string * Table, t_mergedWithId kt.2 = Some id)
                       (tables db))
               (map_imap (λ oid o, Some (o, items_of db oid))
                  (filter (λ ko : string * Order,
                             o_tableId ko.2 = Some id
                             ∧ active (o_status ko.2) = true)
                          (orders db)))))
    (tables db).

(** The seat count the tables page prints on a card:
    [table.capacity + table.mergedTables.reduce((sum, t) => sum + t.capacity, 0)]. *)
Definition sum_capacities (m : gmap string Table) : Z :=
  map_fold (λ _ t sum, (sum + t_capacity t)%Z) 0%Z m.

Definition seats (row : TableRow) : Z :=
  (t_capacity (row_table row) + sum_capacities (row_mergedTables row))%Z.

Lemma GET_tables_lookup (db : DB) (id : string) (tb : Table) :
  tables db !! id = Some tb →
  ∃ row, GET_tables db !! id = Some row
         ∧ row_table row = tb
         ∧ row_mergedTables row
           = filter (λ kt : string * Table, t_mergedWithId kt.2 = Some id)
                    (tables db)
         ∧ ∀ oid, fst <$> row_orders row !! oid
                  = orders db !! oid
                    ≫= λ o, if bool_decide (o_tableId o = Some id)
                               && active (o_status o)
                            then Some o else None.
Proof.
  intros Hid. unfold GET_tables. rewrite map_lookup_imap, Hid. simpl.
  eexists. split; [done|]. simpl. split; [done|]. split; [done|].
  intros oid. rewrite map_lookup_imap.
  destruct (orders db !! oid) as [o|] eqn:Ho; simpl.
  - destruct (bool_decide (o_tableId o = Some id) && active (o_status o)) eqn:Hc.
    + apply andb_true_iff in Hc as [Ht%bool_decide_eq_true Ha].
      rewrite (proj2 (map_lookup_filter_Some _ _ _ o)); [done|]. done.
    + rewrite (proj2 (map_lookup_filter_None _ _ _)); [done|].
      right. intros o' Ho' [Ht Ha]. rewrite Ho in Ho'. injection Ho' as <-.
      simpl in *. rewrite Ha, andb_true_r in Hc.
      by apply bool_decide_eq_false in Hc.
  - rewrite (proj2 (map_lookup_filter_None _ _ _)); [done|]. by left.
Qed.

Lemma no_satellites (m : gmap string Table) (id : string) :
  (∀ k tb, m !! k = Some tb → t_mergedWithId tb ≠ Some id) →
  filter (λ kt : string * Table, t_mergedWithId kt.2 = Some id) m = ∅.
Proof.
  intros Hnone. apply map_eq. intros k. rewrite lookup_empty.
  apply map_lookup_filter_None. right. intros tb Hk. simpl. by eapply Hnone.
Qed.

Lemma release_table_no_satellites (t : string) (tb0 : Table)
    (m : gmap string Table) (k : string) (tb : Table) :
  release_table t tb0 m !! k = Some tb → t_mergedWithId tb ≠ Some t.
Proof.
  unfold release_table. rewrite lookup_fmap.
  destruct (<[t:=table_set_status VACANT tb0]> m !! k) as [tb1|]; simpl; [|done].
  intros [= <-]. case_bool_decide; simpl; congruence.
Qed.

(** X19: once a table is released - by a successful unmerge of it or by a
    successful settlement of an order seated at it - the floor view lists
    no table as merged into it, and its card shows its own capacity as the
    seat count. *)
Theorem seats_after_release (session : Session) (tableId : string)
    (body : PaymentBody) (db : DB) (tb : Table) (o : Order) :
  tables db !! tableId = Some tb →
  can_seat session = true →
  nonempty tableId = true →
  (∃ row, GET_tables (POST_tables_unmerge session (Some tableId) db).2 !! tableId
          = Some row
          ∧ row_mergedTables row = ∅ ∧ seats row = t_capacity tb)
  ∧ (orders db !! b_orderId body = Some o → o_tableId o = Some tableId →
     status (POST_payments session body db).1 = 201%nat →
     ∃ row, GET_tables (POST_payments session body db).2 !! tableId = Some row
            ∧ row_mergedTables row = ∅ ∧ seats row = t_capacity tb).
Proof.
  intros Htb Hs Hne.
  assert (Hview : ∀ db', same_table_set db db' →
            (∀ k tb', tables db' !! k = Some tb' →
                      t_mergedWithId tb' ≠ Some tableId) →
            ∃ row, GET_tables db' !! tableId = Some row
                   ∧ row_mergedTables row = ∅ ∧ seats row = t_capacity tb).
  { intros db' Hsame Hnone. specialize (Hsame tableId). rewrite Htb in Hsame.
    destruct (tables db' !! tableId) as [tb'|] eqn:Htb'; [|done].
    simpl in Hsame. injection Hsame as _ Hcap.
    destruct (GET_tables_lookup db' tableId tb' Htb')
      as (row & Hrow & Ht & Hm & _).
    exists row. split; [done|]. rewrite (no_satellites _ _ Hnone) in Hm.
    split; [done|]. unfold seats, sum_capacities.
    rewrite Hm, Ht, map_fold_empty. lia. }
  split.
  - apply Hview.
    + apply (handle_same_table_set true session (UnmergeTables (Some tableId))).
    + rewrite (POST_tables_unmerge_result _ _ _ Hs Hne), Htb. simpl.
      intros k tb'. apply unmerged_no_satellites.
  - intros Ho Hot H201. apply Hview.
    + apply (handle_same_table_set true session (Settle body)).
    + destruct (POST_payments_cases session body db)
        as [(oid & amount & method & o' & _ & Hb & Ho' & _ & ->)|[Hne' _]];
        [|done].
      assert (oid = b_orderId body) as ->.
      { unfold createPaymentSchema in Hb. destruct (_ && _); [|done].
        destruct (parsePaymentMethod _); simpl in Hb; congruence. }
      rewrite Ho in Ho'. injection Ho' as <-.
      unfold settled in *. rewrite Hot, Htb in *. simpl.
      intros k tb'. apply release_table_no_satellites.
Qed.

Lemma seats_after_release_witness :
  (∃ row, GET_tables (POST_tables_unmerge waiter (Some "A") sample_merged).2 !! "A"
          = Some row
          ∧ row_mergedTables row = ∅ ∧ seats row = 4%Z)
  ∧ (orders sample_merged !! "o1" = Some sample_order →
     o_tableId sample_order = Some "A" →
     status (POST_payments waiter (mkPaymentBody "o1" 25 "CASH") sample_merged).1
     = 201%nat →
     ∃ row, GET_tables
              (POST_payments waiter (mkPaymentBody "o1" 25 "CASH") sample_merged).2
              !! "A" = Some row
            ∧ row_mergedTables row = ∅ ∧ seats row = 4%Z).
Proof.
  apply (seats_after_release waiter "A" (mkPaymentBody "o1" 25 "CASH")
           sample_merged (mkTable 1 4 OCCUPIED None) sample_order); reflexivity.
Defined.

Definition capacity_of (db : DB) (id : string) : Z :=
  default 0%Z (t_capacity <$> tables db !! id).

Lemma sum_capacities_list (M : gmap string Table) (l : list string)
    (c : string → Z) :
  NoDup l →
  (∀ k, t_capacity <$> M !! k = if decide (k ∈ l) then Some (c k) else None) →
  sum_capacities M = foldr (λ k acc, (c k + acc)%Z) 0%Z l.
Proof.
  intros Hnd. revert M. induction Hnd as [|k0 l Hk0 Hnd IH]; intros M HM.
  - assert (M = ∅) as ->; [|by unfold sum_capacities; rewrite map_fold_empty].
    apply map_eq. intros k. rewrite lookup_empty. specialize (HM k).
    rewrite decide_False in HM by apply not_elem_of_nil.
    by destruct (M !! k).
  - assert (Hk := HM k0). rewrite decide_True in Hk by left.
    destruct (M !! k0) as [t0|] eqn:Ht0; [|done]. simpl in Hk.
    injection Hk as Hc.
    rewrite <- (insert_delete_id M k0 t0 Ht0). unfold sum_capacities.
    rewrite map_fold_insert_L.
    + fold (sum_capacities (delete k0 M)). rewrite (IH (delete k0 M)).
      * simpl. lia.
      * intros k. destruct (decide (k = k0)) as [->|Hne].
        -- rewrite lookup_delete_eq. by rewrite decide_False.
        -- rewrite lookup_delete_ne by done. rewrite HM.
           destruct (decide (k ∈ l)) as [Hin|Hout].
           ++ by rewrite decide_True by (by right).
           ++ rewrite decide_False; [done|]. by intros [?|?]%elem_of_cons.
    + intros. lia.
    + apply lookup_delete_eq.
Qed.

(** X20: after a successful merge of distinct existing tables under a
    primary that is not in the rest of the list, and with no table outside
    the list already merged into the primary, the card of the primary shows
    the capacities of all tables of the list added up. *)
Theorem seats_after_merge (session : Session) (primary : string)
    (others : list string) (db : DB) (tp : Table) :
  can_seat session = true →
  others ≠ [] →
  NoDup others →
  primary ∉ others →
  tables db !! primary = Some tp →
  Forall (λ id, is_Some (tables db !! id)) others →
  (∀ k tb, tables db !! k = Some tb → t_mergedWithId tb = Some primary →
     k ∈ others) →
  ∃ row, GET_tables (POST_tables_merge session (primary :: others) db).2 !! primary
         = Some row
         ∧ seats row
           = (t_capacity tp
              + foldr (λ k acc, (capacity_of db k + acc)%Z) 0%Z others)%Z.
Proof.
  intros Hs Hne Hnd Hp Htp Hall Hsat.
  rewrite (POST_tables_merge_result _ _ _ _ Hs Hne).
  rewrite decide_True by (constructor; [by eexists|done]).
  simpl.
  destruct (GET_tables_lookup
              (with_tables db (merged primary others (tables db))) primary
              (table_set_status OCCUPIED tp))
    as (row & Hrow & Ht & Hm & _).
  { simpl. rewrite lookup_merged, Htp. simpl.
    rewrite decide_False by done. by rewrite decide_True. }
  exists row. split; [done|]. unfold seats. rewrite Ht, Hm. simpl. f_equal.
  apply sum_capacities_list; [done|]. intros k.
  rewrite Forall_forall in Hall.
  destruct (decide (k ∈ others)) as [Hin|Hout].
  - destruct (Hall k Hin) as [tk Hk].
    rewrite (proj2 (map_lookup_filter_Some _ _ k
                      (table_set_merge (Some primary) OCCUPIED tk))).
    + simpl. unfold capacity_of. by rewrite Hk.
    + split; [|done]. rewrite lookup_merged, Hk. simpl.
      by rewrite decide_True.
  - rewrite (proj2 (map_lookup_filter_None _ _ _)); [done|].
    right. intros tb'. rewrite lookup_merged.
    destruct (tables db !! k) as [tk|] eqn:Hk; simpl; [|done].
    rewrite decide_False by done. intros [= <-]. simpl. intros Hlink.
    apply Hout, (Hsat k tk Hk). by destruct (decide (k = primary)).
Qed.

Lemma seats_after_merge_witness :
  ∃ row, GET_tables (POST_tables_merge waiter ["A"; "B"; "C"] sample_empty).2 !! "A"
         = Some row
         ∧ seats row
           = (4 + foldr (λ k acc, (capacity_of sample_empty k + acc)%Z) 0%Z
                    ["B"; "C"])%Z.
Proof.
  apply (seats_after_merge waiter "A" ["B"; "C"] sample_empty
           (mkTable 1 4 VACANT None)).
  - reflexivity.
  - discriminate.
  - apply (bool_decide_unpack _). vm_compute. exact I.
  - apply (bool_decide_unpack _). vm_compute. exact I.
  - reflexivity.
  - repeat constructor; eexists; vm_compute; reflexivity.
  - intros k tb Hk Hm. exfalso.
    assert (Hnone : map_Forall (λ _ t, t_mergedWithId t = None)
                      (tables sample_empty)).
    { apply (bool_decide_unpack _). vm_compute. exact I. }
    specialize (Hnone k tb Hk). simpl in Hnone. congruence.
Defined.

(** X21: a settled order leaves the floor view: after a successful
    settlement the order is listed among the open orders of no table, so
    the page finds no active order to pay or to add to. *)
Theorem settled_order_leaves_floor (session : Session) (body : PaymentBody)
    (db : DB) (id : string) (row : TableRow) :
  status (POST_payments session body db).1 = 201%nat →
  GET_tables (POST_payments session body db).2 !! id = Some row →
  row_orders row !! b_orderId body = None.
Proof.
  intros H201 Hrow.
  destruct (POST_payments_cases session body db)
    as [(oid & amount & method & o & _ & Hb & Ho & _ & Heq)|[Hne _]]; [|done].
  assert (oid = b_orderId body) as ->.
  { unfold createPaymentSchema in Hb. destruct (_ && _); [|done].
    destruct (parsePaymentMethod _); simpl in Hb; congruence. }
  assert (Hpaid : orders (POST_payments session body db).2 !! b_orderId body
                  = Some (order_set_status PAID o)).
  { rewrite Heq. unfold settled. repeat case_match; simpl;
      by rewrite lookup_insert_eq. }
  destruct (tables (POST_payments session body db).2 !! id) as [tb|] eqn:Htb.
  - destruct (GET_tables_lookup _ id tb Htb) as (row' & Hrow' & _ & _ & Horders).
    rewrite Hrow in Hrow'. injection Hrow' as <-.
    specialize (Horders (b_orderId body)). rewrite Hpaid in Horders.
    simpl in Horders. rewrite andb_false_r in Horders.
    by destruct (row_orders row !! b_orderId body).
  - unfold GET_tables in Hrow. rewrite map_lookup_imap, Htb in Hrow. done.
Qed.

Lemma settled_order_leaves_floor_witness :
  row_orders
    (mkTableRow (mkTable 1 4 VACANT None) None ∅ ∅) !! "o1" = None.
Proof.
  apply (settled_order_leaves_floor waiter (mkPaymentBody "o1" 25 "CASH")
           sample_db "A" (mkTableRow (mkTable 1 4 VACANT None) None ∅ ∅)).
  - reflexivity.
  - vm_compute. reflexivity.
Defined.

(** ** The tables page: totals

    [calculateOrderTotals] of the tables page.  An order of the page is a
    row of the floor view: the order with its items. *)

Record Totals := mkTotals {
  tot_subtotal : Q;
  tot_discount : Q;
  tot_tax : Q;
  tot_total : Q;
}.

(** [order.discountType && order.discountValue]: a non-empty string and a
    number other than 0.  The page reads the order from a JSON answer,
    where a stored NaN or infinity arrives as [null], which is falsy. *)
Definition has_discount (order : Order) : option (string * Q) :=
  match o_discountType order, o_discountValue order with
  | Some ty, Some (Num v) =>
    if nonempty ty && negb (Qeq_bool v 0) then Some (ty, v) else None
  | _, _ => None
  end.

Definition calculateOrderTotals (order : option (Order * list OrderItem))
    : Totals :=
  match order with
  | None => mkTotals 0 0 0 0
  | Some (order, items) =>
    let sub := subtotal items in
    let discount :=
      match has_discount order with
      | Some (ty, v) =>
        if bool_decide (ty = "PERCENTAGE") then sub * v / 100 else v
      | None => 0
      end in
    let afterDiscount := sub - discount in
    let tax := afterDiscount * TAX_RATE in
    let total := afterDiscount + tax in
    mkTotals sub discount tax total
  end.

(** The discount of a finite value, before [Math.min]. *)
Lemma discountAmount_raw_Num (ty : string) (v sub : Q) :
  discountAmount_raw ty (Num v) sub
  = Num (if bool_decide (ty = "PERCENTAGE") then sub * v / 100
         else if bool_decide (ty = "FIXED") then v else 0).
Proof. unfold discountAmount_raw. by repeat case_bool_decide. Qed.

Lemma calculateOrderTotals_discount (o : Order) (items : list OrderItem)
    (ty : string) (v : Q) :
  o_discountType o = Some ty → o_discountValue o = Some (Num v) →
  nonempty ty = true →
  ty = "PERCENTAGE" ∨ ty = "FIXED" →
  Num (tot_discount (calculateOrderTotals (Some (o, items))))
  ≈ discountAmount_raw ty (Num v) (subtotal items).
Proof.
  intros Hty Hv Hne Hcase. rewrite discountAmount_raw_Num.
  unfold calculateOrderTotals, has_discount. simpl.
  rewrite Hty, Hv, Hne. simpl.
  destruct (Qeq_bool v 0) eqn:Hz; simpl.
  - apply Qeq_bool_iff in Hz. destruct Hcase as [->| ->]; simpl.
    + rewrite Hz. field.
    + by rewrite Hz.
  - destruct Hcase as [->| ->]; reflexivity.
Qed.

(** X22: the page's totals against the stored total.  For an order whose
    discount was stored by a successful apply-discount of type PERCENTAGE
    or FIXED with a finite value: as long as the discount does not exceed
    the subtotal, the page's subtotal minus discount is the stored total,
    and the page's grand total is the stored total plus 13 percent tax;
    once the discount exceeds the subtotal the stored total is 0 (the
    handler clamps) while the page, which does not clamp, shows a negative
    grand total. *)
Theorem page_total_vs_stored_total (session : Session) (body : DiscountBody)
    (db : DB) (id ty : string) (v : Q) (o' : Order) :
  b_discountOrderId body = Some id →
  b_discountType body = Some ty →
  b_discountValue body = Some (Num v) →
  ty = "PERCENTAGE" ∨ ty = "FIXED" →
  succeeded (POST_discount session body db).1 = true →
  orders (POST_discount session body db).2 !! id = Some o' →
  (Nle (discountAmount_raw ty (Num v) (subtotal (items_of db id)))
       (Num (subtotal (items_of db id))) →
   ∃ total,
     o_totalAmount o' = Num total
     ∧ tot_subtotal (calculateOrderTotals (Some (o', items_of db id)))
       - tot_discount (calculateOrderTotals (Some (o', items_of db id)))
       == total
     ∧ tot_total (calculateOrderTotals (Some (o', items_of db id)))
       == total + total * TAX_RATE)
  ∧ (¬ Nle (discountAmount_raw ty (Num v) (subtotal (items_of db id)))
           (Num (subtotal (items_of db id))) →
     o_totalAmount o' ≈ Num 0
     ∧ tot_total (calculateOrderTotals (Some (o', items_of db id))) < 0).
Proof.
  intros Hid Hty Hv Hcase Hok Ho'.
  destruct (POST_discount_result _ _ _ _ Hid Hok)
    as (u & ty' & x' & o & _ & Hty' & Hne & Hx' & _ & Hfinal & _).
  rewrite Hty in Hty'. rewrite Hv in Hx'. simplify_eq.
  set (items := items_of db id) in *. set (sub := subtotal items) in *.
  match goal with
  | |- context [calculateOrderTotals (Some (?x, items))] => set (o1 := x)
  end.
  assert (Hd := calculateOrderTotals_discount o1 items ty' v eq_refl eq_refl
                  Hne Hcase).
  fold sub in Hd.
  assert (Hsub : tot_subtotal (calculateOrderTotals (Some (o1, items))) = sub)
    by reflexivity.
  assert (Htot : tot_total (calculateOrderTotals (Some (o1, items)))
                 = (sub - tot_discount (calculateOrderTotals (Some (o1, items))))
                   + (sub - tot_discount (calculateOrderTotals (Some (o1, items))))
                     * TAX_RATE)
    by reflexivity.
  rewrite Hsub, Htot. clear Hsub Htot.
  revert Hd. generalize (tot_discount (calculateOrderTotals (Some (o1, items)))).
  intros d Hd. subst o1. simpl. unfold discountAmount.
  rewrite discountAmount_raw_Num in *. simpl in *.
  revert Hd.
  generalize (if bool_decide (ty' = "PERCENTAGE") then sub * v / 100
              else if bool_decide (ty' = "FIXED") then v else 0).
  intros raw Hd. split.
  - intros Hle. eexists. split; [reflexivity|]. rewrite Hd.
    rewrite (Q.min_l _ _ Hle).
    rewrite Q.max_r by (by apply (proj1 (Qle_minus_iff _ _))).
    split; reflexivity.
  - intros Hlt%Qnot_le_lt. rewrite Hd.
    rewrite (Q.min_r raw sub) by (by apply Qlt_le_weak).
    assert (Hz : sub - sub == 0) by ring. rewrite Hz.
    rewrite Q.max_l by apply Qle_refl. split; [reflexivity|].
    assert (Hneg : sub - raw < 0).
    { apply (Qplus_lt_l _ _ raw). ring_simplify. exact Hlt. }
    assert (Heq : sub - raw + (sub - raw) * TAX_RATE == (sub - raw) * (113 # 100)).
    { unfold TAX_RATE. ring. }
    rewrite Heq. rewrite <- (Qmult_0_l (113 # 100)).
    by apply Qmult_lt_compat_r.
Qed.

Lemma page_total_vs_stored_total_witness :
  ∃ o' total,
    orders (POST_discount owner sample_discount sample_db).2 !! "o1" = Some o'
    ∧ o_totalAmount o' = Num total
    ∧ tot_total (calculateOrderTotals (Some (o', items_of sample_db "o1")))
      == total + total * TAX_RATE.
Proof.
  eexists.
  destruct (proj1 (page_total_vs_stored_total owner sample_discount
                     sample_db "o1" "PERCENTAGE" 10 _ eq_refl eq_refl
                     eq_refl (or_introl eq_refl) eq_refl eq_refl))
    as (total & Htotal & _ & Hpage).
  { vm_compute. discriminate. }
  exists total. split; [reflexivity|]. split; [exact Htotal|exact Hpage].
Defined.

Lemma GET_tables_order (db : DB) (t id : string) (row : TableRow) (o : Order)
    (items : list OrderItem) :
  GET_tables db !! t = Some row →
  row_orders row !! id = Some (o, items) →
  is_Some (tables db !! t)
  ∧ orders db !! id = Some o
  ∧ o_tableId o = Some t
  ∧ active (o_status o) = true
  ∧ items = items_of db id.
Proof.
  unfold GET_tables. rewrite map_lookup_imap.
  destruct (tables db !! t) as [tb|]; simpl; [|done].
  intros [= <-]. simpl. rewrite map_lookup_imap.
  destruct (filter _ (orders db) !! id) as [o1|] eqn:Hf; simpl; [|done].
  intros [= <- <-]. apply map_lookup_filter_Some in Hf as (Ho & Ht & Ha).
  simpl in *. eauto.
Qed.

(** ** The tables page: the cart

    The cart of the tables page is a list of lines held in the page's
    state; the functions below are the state updates of
    [updateCartItemQuantity] and [toggleCartItemAllergy], the price helpers
    [getItemPrice] and [getCartTotal], and the bundle savings loop and the
    request bodies of [submitOrder]. *)

Record PageMenuItem := mkPageMenuItem {
  pm_id : string;
  pm_price : Q;
  pm_isPromotional : option bool;
  pm_promotionalPrice : option Q;
}.

Record CartItem := mkCartItem {
  c_id : string;
  c_menuItemId : string;
  c_quantity : Z;
  c_notes : string;
  c_allergies : list string;
  c_menuItem : PageMenuItem;
  c_bundleId : option string;
  c_bundlePrice : option Q;
}.

Definition cart_set_quantity (q : Z) (item : CartItem) : CartItem :=
  mkCartItem (c_id item) (c_menuItemId item) q (c_notes item)
             (c_allergies item) (c_menuItem item) (c_bundleId item)
             (c_bundlePrice item).

Definition cart_set_allergies (allergies : list string) (item : CartItem)
    : CartItem :=
  mkCartItem (c_id item) (c_menuItemId item) (c_quantity item) (c_notes item)
             allergies (c_menuItem item) (c_bundleId item)
             (c_bundlePrice item).

Definition updateCartItemQuantity (cartItemId : string) (delta : Z)
    (prev : list CartItem) : list CartItem :=
  filter (λ item, (0 < c_quantity item)%Z)
    ((λ item,
        if bool_decide (c_id item = cartItemId)
        then cart_set_quantity (Z.max 0 (c_quantity item + delta)) item
        else item) <$> prev).

Definition toggleCartItemAllergy (cartItemId allergyId : string)
    (prev : list CartItem) : list CartItem :=
  (λ item,
     if bool_decide (c_id item = cartItemId)
     then cart_set_allergies
            (if bool_decide (allergyId ∈ c_allergies item)
             then filter (λ a, a ≠ allergyId) (c_allergies item)
             else (c_allergies item ++ [allergyId])%list)
            item
     else item) <$> prev.

(** Truthiness of an optional string and of an optional number: absent,
    the empty string and 0 are falsy. *)
Definition truthy_string (s : option string) : option string :=
  s ≫= λ b, if nonempty b then Some b else None.

Definition truthy_number (x : option Q) : option Q :=
  x ≫= λ p, if Qeq_bool p 0 then None else Some p.

Definition defined {A} (x : option A) : bool :=
  match x with Some _ => true | None => false end.

Definition getItemPrice (item : PageMenuItem) : Q :=
  match pm_isPromotional item, truthy_number (pm_promotionalPrice item) with
  | Some true, Some p => p
  | _, _ => pm_price item
  end.

(** [getCartTotal]: the loop state is the running total and the set of
    bundles already counted. *)
Definition getCartTotal (cartItems : list CartItem) : Q :=
  (foldl
     (λ (st : Q * gset string) item,
        match truthy_string (c_bundleId item) with
        | Some bundleId =>
          if bool_decide (bundleId ∈ st.2) then st
          else
            let bundleFirstItem :=
              find (λ i, bool_decide (c_bundleId i = Some bundleId)
                         && defined (c_bundlePrice i)) cartItems in
            (match truthy_number (bundleFirstItem ≫= c_bundlePrice) with
             | Some bundlePrice => st.1 + bundlePrice
             | None => st.1
             end, st.2 ∪ {[bundleId]})
        | None =>
          (st.1 + getItemPrice (c_menuItem item) * inject_Z (c_quantity item),
           st.2)
        end)
     (0, ∅) cartItems).1.

(** The bundle savings computed by [submitOrder]. *)
Definition bundleSavings (itemsToSubmit : list CartItem) : Q :=
  (foldl
     (λ (st : Q * gset string) item,
        match truthy_string (c_bundleId item) with
        | Some bundleId =>
          if bool_decide (bundleId ∈ st.2) then st
          else
            let bundleItems :=
              filter (λ i, c_bundleId i = Some bundleId) itemsToSubmit in
            let regularTotal :=
              foldl (λ sum i,
                       sum + pm_price (c_menuItem i) * inject_Z (c_quantity i))
                    0 bundleItems in
            let bundleFirstItem :=
              find (λ i, defined (c_bundlePrice i)) bundleItems in
            (match truthy_number (bundleFirstItem ≫= c_bundlePrice) with
             | Some bundlePrice => st.1 + (regularTotal - bundlePrice)
             | None => st.1
             end, st.2 ∪ {[bundleId]})
        | None => st
        end)
     (0, ∅) itemsToSubmit).1.

(** The body [submitOrder] sends for one cart line ([notes || undefined]). *)
Definition cart_body (item : CartItem) : OrderItemBody :=
  mkOrderItemBody (c_menuItemId item) (inject_Z (c_quantity item))
                  (if nonempty (c_notes item) then Some (c_notes item) else None)
                  (Some (c_allergies item)).

(** Sum of [f] over a list. *)
Definition sumQ {A} (f : A → Q) (l : list A) : Q :=
  foldr (λ a acc, f a + acc) 0 l.

(** Whether bundle [bundleId] of the cart carries a price: some line of
    the bundle has a [bundlePrice], and the first such price is not 0. *)
Definition bundle_price (cartItems : list CartItem) (bundleId : string)
    : option Q :=
  truthy_number
    (find (λ i, bool_decide (c_bundleId i = Some bundleId)
                && defined (c_bundlePrice i)) cartItems
     ≫= c_bundlePrice).

(** What a cart line contributes to cart total and savings taken
    together. *)
Definition line_charge (cartItems : list CartItem) (item : CartItem) : Q :=
  match truthy_string (c_bundleId item) with
  | None => getItemPrice (c_menuItem item) * inject_Z (c_quantity item)
  | Some bundleId =>
    if defined (bundle_price cartItems bundleId)
    then pm_price (c_menuItem item) * inject_Z (c_quantity item)
    else 0
  end.

(** X24: changing a quantity keeps the cart submittable.  After
    [updateCartItemQuantity] every line has a positive quantity, so the
    quantity of every body sent for it passes the integer and positivity
    checks of the order schemas; and the lines of the new cart are exactly
    the lines of the old one - the addressed ones with the delta added -
    that have a positive quantity. *)
Theorem updateCartItemQuantity_valid (cartItemId : string) (delta : Z)
    (prev : list CartItem) :
  Forall (λ item, is_int (b_quantity (cart_body item))
                  && positive (b_quantity (cart_body item)) = true)
         (updateCartItemQuantity cartItemId delta prev)
  ∧ ∀ item', item' ∈ updateCartItemQuantity cartItemId delta prev
      ↔ (0 < c_quantity item')%Z
        ∧ ∃ item, item ∈ prev
            ∧ item' = if bool_decide (c_id item = cartItemId)
                      then cart_set_quantity (c_quantity item + delta) item
                      else item.
Proof.
  assert (Hchar : ∀ item', item' ∈ updateCartItemQuantity cartItemId delta prev
      ↔ (0 < c_quantity item')%Z
        ∧ ∃ item, item ∈ prev
            ∧ item' = if bool_decide (c_id item = cartItemId)
                      then cart_set_quantity (c_quantity item + delta) item
                      else item).
  { intros item'. unfold updateCartItemQuantity.
    rewrite list_elem_of_filter, list_elem_of_fmap. split.
    - intros [Hpos (item & -> & Hin)]. split; [done|]. exists item.
      split; [done|]. case_bool_decide; [|done].
      simpl in Hpos. unfold cart_set_quantity. f_equal. lia.
    - intros [Hpos (item & Hin & ->)]. split; [done|]. exists item.
      split; [|done]. case_bool_decide; [|done].
      simpl in Hpos. unfold cart_set_quantity. f_equal. lia. }
  split; [|exact Hchar].
  apply Forall_forall. intros item' [Hpos _]%Hchar.
  apply quantity_check. exists (c_quantity item'). split; [done|reflexivity].
Qed.

Lemma filter_all {A} (P : A → Prop) `{!∀ x, Decision (P x)} (l : list A) :
  Forall P l → filter P l = l.
Proof.
  induction 1 as [|x l Hx _ IH]; [done|].
  by rewrite filter_cons_True, IH.
Qed.

Lemma toggle_allergies_twice (allergyId : string) (allergies : list string)
    (b : string) :
  let toggle l :=
    if bool_decide (allergyId ∈ l) then filter (λ a, a ≠ allergyId) l
    else (l ++ [allergyId])%list in
  b ∈ toggle (toggle allergies) ↔ b ∈ allergies.
Proof.
  simpl. destruct (decide (allergyId ∈ allergies)) as [Hin|Hout].
  - rewrite (bool_decide_eq_true_2 (allergyId ∈ allergies)) by done.
    rewrite bool_decide_eq_false_2.
    + rewrite elem_of_app, list_elem_of_filter, list_elem_of_singleton.
      split; [intros [[_ ?]| ->]; done|].
      intros Hb. destruct (decide (b = allergyId)); auto.
    + rewrite list_elem_of_filter. by intros [? _].
  - rewrite (bool_decide_eq_false_2 (allergyId ∈ allergies)) by done.
    rewrite bool_decide_eq_true_2
      by (rewrite elem_of_app, list_elem_of_singleton; auto).
    rewrite list_elem_of_filter, elem_of_app, list_elem_of_singleton.
    split; [intros [? [?| ->]]; done|].
    intros Hb. split; [congruence|auto].
Qed.

(** X25: ticking an allergy on a cart line.  One toggle flips the
    membership of that allergy on every line with the given id and changes
    nothing else: the other allergies of the line, its other fields, the
    other lines and the order of the lines stay.  Toggling the same allergy
    twice gives every line the allergies it had, as a set; the cart itself
    is restored exactly when no addressed line carried the allergy
    before. *)
Theorem toggleCartItemAllergy_flips (cartItemId allergyId : string)
    (prev : list CartItem) :
  (∀ i item, prev !! i = Some item →
     ∃ item', toggleCartItemAllergy cartItemId allergyId prev !! i = Some item'
       ∧ cart_set_allergies [] item' = cart_set_allergies [] item
       ∧ (c_id item ≠ cartItemId → item' = item)
       ∧ (c_id item = cartItemId →
          (allergyId ∈ c_allergies item' ↔ allergyId ∉ c_allergies item)
          ∧ ∀ b, b ≠ allergyId →
              (b ∈ c_allergies item' ↔ b ∈ c_allergies item)))
  ∧ (∀ i item, prev !! i = Some item →
       ∃ item'', toggleCartItemAllergy cartItemId allergyId
                   (toggleCartItemAllergy cartItemId allergyId prev) !! i
                 = Some item''
         ∧ cart_set_allergies [] item'' = cart_set_allergies [] item
         ∧ ∀ b, b ∈ c_allergies item'' ↔ b ∈ c_allergies item)
  ∧ ((∀ item, item ∈ prev → c_id item = cartItemId →
        allergyId ∉ c_allergies item) →
     toggleCartItemAllergy cartItemId allergyId
       (toggleCartItemAllergy cartItemId allergyId prev) = prev).
Proof.
  split; [|split].
  - intros i item Hi. unfold toggleCartItemAllergy.
    rewrite list_lookup_fmap, Hi. simpl. eexists. split; [done|].
    case_bool_decide as Hid; simpl.
    + split; [done|]. split; [done|]. intros _.
      case_bool_decide as Hin.
      * split.
        -- rewrite list_elem_of_filter. split; [by intros [? _]|done].
        -- intros b Hb. rewrite list_elem_of_filter. tauto.
      * split.
        -- rewrite elem_of_app, list_elem_of_singleton. tauto.
        -- intros b Hb. rewrite elem_of_app, list_elem_of_singleton.
           tauto.
    + split; [done|]. split; [done|]. done.
  - intros i item Hi. unfold toggleCartItemAllergy.
    rewrite !list_lookup_fmap, Hi. simpl. eexists. split; [done|].
    destruct (bool_decide (c_id item = cartItemId)) eqn:Hid; simpl.
    + rewrite Hid. simpl. split; [done|].
      intros b. apply (toggle_allergies_twice allergyId (c_allergies item) b).
    + rewrite Hid. done.
  - intros Hfresh. unfold toggleCartItemAllergy.
    rewrite <- list_fmap_compose. rewrite <- (list_fmap_id prev) at 2.
    apply list_fmap_ext. intros i item Hin%list_elem_of_lookup_2. simpl.
    destruct (bool_decide (c_id item = cartItemId)) eqn:Hid; simpl.
    + rewrite Hid. simpl. apply bool_decide_eq_true in Hid.
      specialize (Hfresh item Hin Hid).
      rewrite (bool_decide_eq_false_2 (allergyId ∈ c_allergies item)) by done.
      rewrite bool_decide_eq_true_2
        by (rewrite elem_of_app, list_elem_of_singleton; auto).
      rewrite filter_app, filter_all.
      * rewrite filter_cons_False by (intros ?; done).
        rewrite filter_nil, app_nil_r. by destruct item.
      * apply Forall_forall. intros a Ha. congruence.
    + rewrite Hid. done.
Qed.

(** *** Loops that count each bundle once *)

Lemma sumQ_ext {A} (f g : A → Q) (l : list A) :
  (∀ a, a ∈ l → f a == g a) → sumQ f l == sumQ g l.
Proof.
  induction l as [|a l IH]; intros Hfg; simpl; [reflexivity|].
  rewrite (Hfg a) by left. rewrite IH; [reflexivity|].
  intros a' Ha'. apply Hfg. by right.
Qed.

Lemma sumQ_plus {A} (f g : A → Q) (l : list A) :
  sumQ (λ a, f a + g a) l == sumQ f l + sumQ g l.
Proof.
  induction l as [|a l IH]; simpl; [reflexivity|]. rewrite IH. ring.
Qed.

Lemma sumQ_zero {A} (l : list A) : sumQ (λ _, 0) l == 0.
Proof. induction l as [|a l IH]; simpl; [reflexivity|]. rewrite IH. ring. Qed.

Lemma foldl_sumQ {A} (f : A → Q) (l : list A) (t : Q) :
  foldl (λ sum a, sum + f a) t l == t + sumQ f l.
Proof.
  revert t. induction l as [|a l IH]; intros t; simpl; [ring|].
  rewrite IH. ring.
Qed.

Lemma sumQ_filter {A} (P : A → Prop) `{!∀ x, Decision (P x)} (f : A → Q)
    (l : list A) :
  sumQ f (filter P l) == sumQ (λ a, if decide (P a) then f a else 0) l.
Proof.
  induction l as [|a l IH]; simpl; [reflexivity|].
  rewrite filter_cons. destruct (decide (P a)); simpl; rewrite IH; ring.
Qed.

Lemma find_filter {A} (P : A → Prop) `{!∀ x, Decision (P x)} (p : A → bool)
    (l : list A) :
  find p (filter P l) = find (λ x, bool_decide (P x) && p x) l.
Proof.
  induction l as [|a l IH]; simpl; [done|].
  rewrite filter_cons. destruct (decide (P a)) as [Ha|Ha]; simpl.
  - rewrite (bool_decide_eq_true_2 _ Ha). simpl. by destruct (p a).
  - by rewrite (bool_decide_eq_false_2 _ Ha).
Qed.

Section once_per_bundle.
Context {A : Type} (key : A → option string).

(** One round of a loop that adds [h] for a line outside a bundle and [g]
    for the first line of each bundle. *)
Definition first_step (g : string → option Q) (h : A → option Q)
    (st : Q * gset string) (a : A) : Q * gset string :=
  match key a with
  | Some b =>
    if bool_decide (b ∈ st.2) then st
    else (match g b with Some x => st.1 + x | None => st.1 end, st.2 ∪ {[b]})
  | None => (match h a with Some x => st.1 + x | None => st.1 end, st.2)
  end.

Fixpoint once (g : string → Q) (h : A → Q) (l : list A) (P : gset string) : Q :=
  match l with
  | [] => 0
  | a :: l =>
    match key a with
    | Some b => if bool_decide (b ∈ P) then once g h l P
                else g b + once g h l (P ∪ {[b]})
    | None => h a + once g h l P
    end
  end.

Lemma first_loop (g : string → option Q) (h : A → option Q) (l : list A)
    (t : Q) (P : gset string) :
  (foldl (first_step g h) (t, P) l).1
  == t + once (λ b, default 0 (g b)) (λ a, default 0 (h a)) l P.
Proof.
  revert t P. induction l as [|a l IH]; intros t P; simpl; [ring|].
  unfold first_step at 2. simpl. destruct (key a) as [b|].
  - case_bool_decide.
    + apply IH.
    + rewrite IH. destruct (g b); simpl; ring.
  - rewrite IH. destruct (h a); simpl; ring.
Qed.

Lemma once_plus (g1 g2 : string → Q) (h1 h2 : A → Q) (l : list A)
    (P : gset string) :
  once g1 h1 l P + once g2 h2 l P
  == once (λ b, g1 b + g2 b) (λ a, h1 a + h2 a) l P.
Proof.
  revert P. induction l as [|a l IH]; intros P; simpl; [ring|].
  destruct (key a) as [b|].
  - case_bool_decide; [apply IH|]. rewrite <- IH. ring.
  - rewrite <- IH. ring.
Qed.

Lemma once_regroup (g : string → Q) (h w : A → Q) (l : list A)
    (P : gset string) :
  (∀ a b, a ∈ l → key a = Some b → b ∉ P →
     g b == sumQ (λ a', if decide (key a' = Some b) then w a' else 0) l) →
  once g h l P
  == sumQ (λ a, match key a with
                | Some b => if bool_decide (b ∈ P) then 0 else w a
                | None => h a
                end) l.
Proof.
  revert P. induction l as [|a l IH]; intros P Hg; simpl; [reflexivity|].
  destruct (key a) as [b|] eqn:Hk.
  - case_bool_decide as HP.
    + rewrite IH; [ring|]. intros a' b' Ha' Hk' Hb'.
      rewrite (Hg a' b') by (done || by right). simpl.
      rewrite decide_False; [ring|]. rewrite Hk. intros [= ->]. done.
    + rewrite (Hg a b) by (done || by left). simpl.
      rewrite decide_True by done.
      rewrite IH.
      * rewrite <- Qplus_assoc. apply Qplus_comp; [reflexivity|].
        rewrite <- sumQ_plus. apply sumQ_ext. intros a' _.
        destruct (key a') as [b'|] eqn:Hk'.
        -- destruct (decide (b' = b)) as [->|Hne].
           ++ rewrite decide_True by done.
              rewrite (bool_decide_eq_false_2 (b ∈ P)) by done.
              rewrite (bool_decide_eq_true_2 (b ∈ P ∪ {[b]}))
                by (by apply elem_of_union_r, elem_of_singleton).
              ring.
           ++ rewrite decide_False by congruence.
              destruct (decide (b' ∈ P)) as [Hin|Hout].
              ** rewrite (bool_decide_eq_true_2 (b' ∈ P)) by done.
                 rewrite (bool_decide_eq_true_2 (b' ∈ P ∪ {[b]}))
                   by (by apply elem_of_union_l).
                 ring.
              ** rewrite (bool_decide_eq_false_2 (b' ∈ P)) by done.
                 rewrite (bool_decide_eq_false_2 (b' ∈ P ∪ {[b]}))
                   by (rewrite elem_of_union, elem_of_singleton; tauto).
                 ring.
        -- rewrite decide_False by done. ring.
      * intros a' b' Ha' Hk' Hb'.
        rewrite (Hg a' b');
          [|by right|done|by intros ?; apply Hb', elem_of_union_l].
        simpl. rewrite decide_False; [ring|]. rewrite Hk. intros [= ->].
        by apply Hb', elem_of_union_r, elem_of_singleton.
  - rewrite IH; [ring|]. intros a' b' Ha' Hk' Hb'.
    rewrite (Hg a' b') by (done || by right). simpl.
    rewrite decide_False by (rewrite Hk; done). ring.
Qed.

Lemma once_ext (g g' : string → Q) (h h' : A → Q) (l : list A)
    (P : gset string) :
  (∀ b, g b == g' b) → (∀ a, h a == h' a) →
  once g h l P == once g' h' l P.
Proof.
  intros Hg Hh. revert P. induction l as [|a l IH]; intros P; simpl;
    [reflexivity|].
  destruct (key a) as [b|].
  - case_bool_decide; [apply IH|]. by rewrite Hg, IH.
  - by rewrite Hh, IH.
Qed.

End once_per_bundle.

Lemma foldl_ext_all {A B} (f f' : B → A → B) (l : list A) (b : B) :
  (∀ b a, f b a = f' b a) → foldl f b l = foldl f' b l.
Proof.
  intros Hf. revert b. induction l as [|a l IH]; intros b; simpl; [done|].
  by rewrite Hf, IH.
Qed.

Lemma truthy_string_Some (s : option string) (b : string) :
  truthy_string s = Some b ↔ s = Some b ∧ nonempty b = true.
Proof.
  unfold truthy_string. destruct s as [b'|]; simpl.
  - destruct (nonempty b') eqn:Hne.
    + split; [by intros [= <-]|by intros [[= <-] _]].
    + split; [done|]. intros [[= <-] ?]. congruence.
  - split; [done|by intros [? _]].
Qed.

(** The regular price of the lines of a bundle. *)
Definition regularTotal (cartItems : list CartItem) (bundleId : string) : Q :=
  foldl (λ sum i, sum + pm_price (c_menuItem i) * inject_Z (c_quantity i)) 0
        (filter (λ i, c_bundleId i = Some bundleId) cartItems).

Lemma getCartTotal_once (cartItems : list CartItem) :
  getCartTotal cartItems
  == once (λ a, truthy_string (c_bundleId a))
          (λ b, default 0 (bundle_price cartItems b))
          (λ a, getItemPrice (c_menuItem a) * inject_Z (c_quantity a))
          cartItems ∅.
Proof.
  rewrite <- (Qplus_0_l (once _ _ _ _ _)).
  rewrite <- (first_loop (λ a, truthy_string (c_bundleId a))
                (bundle_price cartItems)
                (λ a, Some (getItemPrice (c_menuItem a) * inject_Z (c_quantity a)))).
  reflexivity.
Qed.

Lemma bundleSavings_once (cartItems : list CartItem) :
  bundleSavings cartItems
  == once (λ a, truthy_string (c_bundleId a))
          (λ b, match bundle_price cartItems b with
                | Some p => regularTotal cartItems b - p
                | None => 0
                end)
          (λ _, 0) cartItems ∅.
Proof.
  transitivity
    (foldl (first_step (λ a, truthy_string (c_bundleId a))
              (λ b, match bundle_price cartItems b with
                    | Some p => Some (regularTotal cartItems b - p)
                    | None => None
                    end)
              (λ _, None)) (0, ∅) cartItems).1.
  - unfold bundleSavings.
    erewrite foldl_ext_all; [reflexivity|].
    intros [t P] a. unfold first_step. simpl.
    destruct (truthy_string (c_bundleId a)) as [b|]; [|done].
    case_bool_decide; [done|]. rewrite find_filter.
    fold (bundle_price cartItems b). fold (regularTotal cartItems b).
    by destruct (bundle_price cartItems b).
  - rewrite first_loop, Qplus_0_l. apply once_ext; [|reflexivity].
    intros b. destruct (bundle_price cartItems b); reflexivity.
Qed.

(** X26: what the cart shows and what is sent as bundle savings add up to
    the charge of the lines.  A line outside a bundle counts with its item
    price (the promotional price when the item is promotional) times its
    quantity.  A line of a bundle counts with the regular price of its item
    times its quantity when the bundle carries a price; the lines of a
    bundle that carries no price - none of its lines has one, or the first
    one found is 0 - count for nothing, in the cart total and in the
    savings alike. *)
Theorem cart_total_and_savings (cartItems : list CartItem) :
  getCartTotal cartItems + bundleSavings cartItems
  == sumQ (line_charge cartItems) cartItems.
Proof.
  rewrite getCartTotal_once, bundleSavings_once, once_plus.
  set (key := λ a : CartItem, truthy_string (c_bundleId a)).
  set (w := λ a : CartItem,
         match key a with
         | Some b => if defined (bundle_price cartItems b)
                     then pm_price (c_menuItem a) * inject_Z (c_quantity a)
                     else 0
         | None => 0
         end).
  rewrite (once_regroup key _ _ w).
  - apply sumQ_ext. intros a _. unfold line_charge, w, key.
    destruct (truthy_string (c_bundleId a)) as [b|]; [|ring].
    rewrite bool_decide_eq_false_2 by apply not_elem_of_empty. reflexivity.
  - intros a b _ Hk _. apply truthy_string_Some in Hk as [_ Hne].
    assert (Hkey : ∀ a', key a' = Some b ↔ c_bundleId a' = Some b).
    { intros a'. unfold key. rewrite truthy_string_Some. tauto. }
    destruct (bundle_price cartItems b) as [p|] eqn:Hp.
    + simpl. unfold regularTotal. rewrite foldl_sumQ, sumQ_filter.
      assert (Heq : ∀ x y : Q, p + (0 + x - p) == y ↔ x == y).
      { intros x y. split; intros H; [rewrite <- H|rewrite H]; ring. }
      apply Heq. apply sumQ_ext. intros a' _. unfold w.
      destruct (decide (c_bundleId a' = Some b)) as [Hb|Hb].
      * rewrite decide_True by (by apply Hkey).
        rewrite (proj2 (Hkey a') Hb), Hp. reflexivity.
      * rewrite decide_False; [reflexivity|]. by rewrite Hkey.
    + simpl. rewrite Qplus_0_l. symmetry.
      rewrite <- (sumQ_zero cartItems). apply sumQ_ext. intros a' _. unfold w.
      destruct (decide (key a' = Some b)) as [Hb|Hb]; [|reflexivity].
      rewrite Hb, Hp. reflexivity.
Qed.

Definition sample_cart : list CartItem :=
  [ mkCartItem "burger-1" "burger" 2 "" ["gluten"]
      (mkPageMenuItem "burger" 10 None None) None None;
    mkCartItem "fries-2" "fries" 1 "" []
      (mkPageMenuItem "fries" 5 None None) (Some "bundle-p1-7") (Some 4) ].

Lemma toggleCartItemAllergy_flips_witness :
  toggleCartItemAllergy "burger-1" "nuts"
    (toggleCartItemAllergy "burger-1" "nuts" sample_cart) = sample_cart.
Proof.
  apply (proj2 (proj2 (toggleCartItemAllergy_flips "burger-1" "nuts" sample_cart))).
  intros item Hin _. apply (bool_decide_unpack _).
  unfold sample_cart in Hin.
  apply elem_of_cons in Hin as [->|Hin]; [vm_compute; exact I|].
  apply elem_of_cons in Hin as [->|Hin]; [vm_compute; exact I|].
  by apply elem_of_nil in Hin.
Defined.

(** * Amounts are never negative

    As long as the catalogue has no negative price, no handler ever stores
    a negative item price, a negative quantity or an order total below 0,
    whatever the requests and whether they succeed or fail half-way.  A
    stored total need not be a finite number, though: the apply-discount
    handler stores NaN or Infinity when the discount value it parsed is
    not finite. *)

Definition item_nonneg (it : OrderItem) : Prop :=
  0 <= oi_price it ∧ (0 <= oi_quantity it)%Z.



(** The store has no negative catalogue price, item price or quantity,
    and every stored order total satisfies [T]. *)
Definition nonneg (T : Number → Prop) (db : DB) : Prop :=
  map_Forall (λ _ m, 0 <= mi_price m) (menuItems db)
  ∧ Forall item_nonneg (orderItems db)
  ∧ map_Forall (λ _ o, T (o_totalAmount o)) (orders db).











Section Amounts.
Context (T : Number → Prop) (T_num : ∀ q, 0 <= q → T (Num q)).

#[local] Abbreviation nonneg := (nonneg T).

Definition nonneg_kept (db db' : DB) : Prop := nonneg db → nonneg db'.

#[local] Instance nonneg_kept_refl : Reflexive nonneg_kept.
Proof. intros db H. exact H. Qed.
#[local] Instance nonneg_kept_trans : Transitive nonneg_kept.
Proof. intros a b c Hab Hbc H. apply Hbc, Hab, H. Qed.

(** [safe m Q]: from a store without negative amounts, [m] leads to such a
    store again, and a value it returns satisfies [Q]. *)
Definition safe {A} (m : Prisma A) (Q : A → Prop) : Prop :=
  ∀ db, nonneg db → nonneg (m db).2 ∧ ∀ a, (m db).1 = Some a → Q a.


Lemma safe_throw {A} (Q : A → Prop) : safe (@throw A) Q.
Proof. intros db Hdb. simpl. split; done. Qed.



















End Amounts.



(** X28: closing an order through the status route.  Setting an existing
    order to PAID or CANCELLED with the order-status handler takes the
    order off the floor view of every table, but - unlike a settlement -
    records no payment and leaves all tables as they were, so the table of
    the order keeps its status and its merge links. *)
Theorem closing_by_status (session : Session) (id status : string) (db : DB)
    (o : Order) (st : OrderStatus) :
  is_Some session →
  orders db !! id = Some o →
  parseOrderStatus status = Some st →
  st = PAID ∨ st = CANCELLED →
  (PUT_order session id status db).1 = json 200
  ∧ tables (PUT_order session id status db).2 = tables db
  ∧ payments (PUT_order session id status db).2 = payments db
  ∧ ∀ t row, GET_tables (PUT_order session id status db).2 !! t = Some row →
      row_orders row !! id = None.
Proof.
  intros [u ->] Ho Hst Hclosed.
  assert (Heq : PUT_order (Some u) id status db
                = (json 200,
                   with_orders db (<[id := order_set_status st o]> (orders db)))).
  { unfold PUT_order, updateOrderStatusSchema. rewrite Hst.
    unfold order_update. run_prisma. by rewrite Ho. }
  rewrite Heq. simpl. split; [done|]. split; [done|]. split; [done|].
  intros t row Hrow.
  destruct (row_orders row !! id) as [[o' its]|] eqn:Hid; [|done].
  destruct (GET_tables_order _ _ _ _ _ _ Hrow Hid) as (_ & Ho' & _ & Ha & _).
  simpl in Ho'. rewrite lookup_insert_eq in Ho'. injection Ho' as <-.
  simpl in Ha. by destruct Hclosed as [-> | ->].
Qed.

Lemma closing_by_status_witness :
  tables (PUT_order owner "o1" "CANCELLED" sample_db).2 = tables sample_db.
Proof.
  apply (closing_by_status owner "o1" "CANCELLED" sample_db sample_order
           CANCELLED).
  - by eexists.
  - reflexivity.
  - reflexivity.
  - by right.
Defined.
